(** * autoblow-panel: the funscript generator [scripts/generate_edging_script.py]

    A shallow embedding of the generator and of the properties its design
    document states about it.

    Conventions of the embedding.
    - Python [int] values are [Z]; Python [float] values are rationals [Q]:
      the binary64 operations [+], [*], [/] are read as the exact rational
      ones, and [int(x)] is truncation toward zero.  Module [Binary64]
      re-evaluates, on IEEE-754 binary64, the float expressions whose value
      decides a concrete evaluation below.
    - [math.sin], [math.cos] and [math.pi] are parameters of the generators
      (Section [Generators]); [libm_sin], [libm_cos] and [libm_pi] are
      concrete rational stand-ins used to run the generators.
    - The [random] module is a tape of raw generator outputs with a cursor;
      [random.random], [random.randint], [random.uniform] and
      [random.choice] read the next raw output and advance the cursor.
    - A raised exception is the [None] of an [option]: [ZeroDivisionError]
      on a division by zero, and [OverflowError] where a float operation
      overflows and the infinity reaches [int].  Of a float the theorems
      assert what binary64 keeps: bounds, order, and that it is the value of
      the expression the code computes it by; they do not equate results
      that are rounded separately.
    - The [while] loop of the scheduler takes fuel; running out of fuel is a
      distinct outcome, so termination is a statement about the model. *)

From Stdlib Require Import Strings.String.
From Stdlib Require Import ZArith QArith Qabs Qround List Bool Lia Lqa.
From Stdlib Require Import Sorted.
From Stdlib Require Import Uint63 Floats.
Import ListNotations.
Open Scope Z_scope.

(** * Part I: the program *)

(** ** Python numerics *)

Module Py.

(** [int(x)] for a float [x]: truncation toward zero. *)
Definition int (x : Q) : Z :=
  if Qle_bool 0 x then Qfloor x else Qceiling x.

(** [float(z)] for an int [z]. *)
Definition float (z : Z) : Q := inject_Z z.

(** [a / b] on floats; [ZeroDivisionError] is [None]. *)
Definition div (a b : Q) : option Q :=
  if Qeq_bool b 0 then None else Some (a / b)%Q.

(** The least magnitude binary64 rounds to an infinity: halfway between
    the largest finite float, [2^1024 - 2^971], and [2^1024], that is
    [2^1024 - 2^970 = (2^54 - 1) * 2^970]. *)
Definition OVERFLOW_INT : Z := Z.shiftl (2 ^ 54 - 1) 970.
Definition OVERFLOW : Q := inject_Z OVERFLOW_INT.

(** Whether the exact value [x] is beyond the finite floats: the result of
    a float operation whose exact value is [x] is then an infinity, and the
    conversion of an int [x] to a float raises [OverflowError]. *)
Definition overflows (x : Q) : bool := Qle_bool OVERFLOW (Qabs x).

(** [x < y] on floats. *)
Definition lt (x y : Q) : bool := negb (Qle_bool y x).

(** [max(0, min(100, p))]. *)
Definition clamp (p : Z) : Z := Z.max 0 (Z.min 100 p).

(** [for i in range(i0, i0 + n): s = body(i, s)]. *)
Fixpoint for_range {S : Type} (n : nat) (i : Z) (body : Z -> S -> S) (s : S) : S :=
  match n with
  | O => s
  | S n' => for_range n' (i + 1) body (body i s)
  end.

End Py.

(** ** The [random] module

    The generator's state is a tape of raw outputs and a cursor; each call
    of the module's functions consumes one raw output.  Every in-range
    result is produced by some raw output, so quantifying over tapes is
    quantifying over draws. *)

Record rng : Type := mk_rng { tape : nat -> Z; cursor : nat }.

Module Random.

Definition next (g : rng) : Z * rng :=
  (tape g (cursor g), mk_rng (tape g) (S (cursor g))).

(** [_randbelow(n)]: an int in [[0, n)]. *)
Definition randbelow (n : Z) (g : rng) : Z * rng :=
  let '(r, g) := next g in (r mod n, g).

(** [random.random()]: 53 random bits over [2^53], a float in [[0, 1)]. *)
Definition random (g : rng) : Q * rng :=
  let '(r, g) := next g in (Qmake (r mod 2 ^ 53) (2 ^ 53), g).

(** [random.randint(a, b)]: an int in [[a, b]]. *)
Definition randint (a b : Z) (g : rng) : Z * rng :=
  let '(r, g) := randbelow (b - a + 1) g in (a + r, g).

(** [random.uniform(a, b)]: [a + (b - a) * random()]. *)
Definition uniform (a b : Q) (g : rng) : Q * rng :=
  let '(u, g) := random g in ((a + (b - a) * u)%Q, g).

(** [random.choice(seq)]: [seq[_randbelow(len(seq))]]. *)
Definition choice {A : Type} (d : A) (seq : list A) (g : rng) : A * rng :=
  let '(i, g) := randbelow (Z.of_nat (length seq)) g in
  (nth (Z.to_nat i) seq d, g).

End Random.

(** ** Data model *)

(** One keyframe [{"at": ..., "pos": ...}]. *)
Record Action : Type := mkAction { at_ : Z; pos : Z }.

(** ** Constants *)

Definition DURATION_MS : Z := 30 * 60 * 1000.
Definition SPEED_VARIATION_INTERVAL : Z := 60 * 1000.
Definition UP_SPEED_MULTIPLIER : Q := 3 # 2.
Definition base_ms_per_unit : Z := 150.

(** ** Duration Model *)

(** The division converts the int [distance * base_ms_per_unit] to a
    float ([OverflowError] when it is too large) and raises
    [ZeroDivisionError] on a zero multiplier.  A quotient beyond the finite
    floats is an infinity, stays one when divided by [UP_SPEED_MULTIPLIER],
    and [int] of it raises [OverflowError]. *)
Definition calculate_duration
    (distance : Z) (going_up : bool) (speed_multiplier : Q) : option Z :=
  if Py.overflows (Py.float (distance * base_ms_per_unit)) then None
  else
    match Py.div (Py.float (distance * base_ms_per_unit)) speed_multiplier with
    | None => None
    | Some duration =>
        if Py.overflows duration then None
        else
          let duration :=
            if going_up then (duration / UP_SPEED_MULTIPLIER)%Q else duration in
          Some (Py.int duration)
    end.

(** ** Segment generators *)

Section Generators.

(** [math.sin], [math.cos], [math.pi]. *)
Variables (sin cos : Q -> Q) (pi : Q).

(** The body of the sampling loop of [generate_wave_motion]; the loop state
    is the list built so far and the random generator. *)
Definition wave_body (start_pos end_pos start_time num_points base_duration : Z)
    (i : Z) (s : list Action * rng) : list Action * rng :=
  let '(actions, g) := s in
  let progress := (Py.float i / Py.float num_points)%Q in
  let '(wave_amplitude, g) := Random.randint 5 10 g in
  let wave_offset :=
    if (i =? 0) || (i =? num_points) then 0%Q
    else (Py.float wave_amplitude * sin (progress * pi * 2))%Q in
  let p := (Py.float start_pos + Py.float (end_pos - start_pos) * progress
            + wave_offset)%Q in
  let p := Py.clamp (Py.int p) in
  let time := start_time + Py.int (Py.float base_duration * progress) in
  (actions ++ [mkAction time p], g).

Definition generate_wave_motion (start_pos end_pos start_time : Z)
    (speed_mult : Q) (g : rng) : option (list Action * Z * rng) :=
  let going_up := end_pos >? start_pos in
  let distance := Z.abs (end_pos - start_pos) in
  let '(num_points, g) := Random.randint 5 7 g in
  match calculate_duration distance going_up speed_mult with
  | None => None
  | Some base_duration =>
      let '(actions, g) :=
        Py.for_range (Z.to_nat (num_points + 1)) 0
          (wave_body start_pos end_pos start_time num_points base_duration)
          ([], g) in
      Some (actions, start_time + base_duration, g)
  end.

Definition gradual_body (start_pos end_pos start_time num_points base_duration : Z)
    (i : Z) (actions : list Action) : list Action :=
  let progress := (Py.float i / Py.float num_points)%Q in
  let eased_progress := ((cos ((1 - progress) * pi) + 1) / 2)%Q in
  let p := (Py.float start_pos
            + Py.float (end_pos - start_pos) * eased_progress)%Q in
  let p := Py.clamp (Py.int p) in
  let time := start_time + Py.int (Py.float base_duration * progress) in
  actions ++ [mkAction time p].

Definition generate_gradual_motion (start_pos end_pos start_time : Z)
    (speed_mult : Q) (g : rng) : option (list Action * Z * rng) :=
  let going_up := end_pos >? start_pos in
  let distance := Z.abs (end_pos - start_pos) in
  let '(num_points, g) := Random.randint 8 10 g in
  match calculate_duration distance going_up speed_mult with
  | None => None
  | Some base_duration =>
      let actions :=
        Py.for_range (Z.to_nat (num_points + 1)) 0
          (gradual_body start_pos end_pos start_time num_points base_duration)
          [] in
      Some (actions, start_time + base_duration, g)
  end.

End Generators.

(** The loop state of [generate_plateau_motion]:
    [(actions, current_pos, current_time)]. *)
Definition plateau_body (start_pos : Z) (going_up : bool)
    (segment_distance : Q) (base_duration num_segments : Z)
    (i : Z) (s : list Action * Z * Z) : list Action * Z * Z :=
  let '(actions, current_pos, current_time) := s in
  let target_pos :=
    (Py.float start_pos
     + segment_distance * Py.float (i + 1)
       * Py.float (if going_up then 1 else -1))%Q in
  let target_pos := Py.int target_pos in
  let segment_duration := base_duration / (num_segments * 2) in
  let actions := actions ++ [mkAction current_time current_pos] in
  let current_time := current_time + segment_duration in
  let actions := actions ++ [mkAction current_time target_pos] in
  let current_time := current_time + segment_duration in
  (actions, target_pos, current_time).

Definition generate_plateau_motion (start_pos end_pos start_time : Z)
    (speed_mult : Q) (g : rng) : option (list Action * Z * rng) :=
  let going_up := end_pos >? start_pos in
  let distance := Z.abs (end_pos - start_pos) in
  match calculate_duration distance going_up speed_mult with
  | None => None
  | Some base_duration =>
      let num_segments := 3 in
      let segment_distance := (Py.float distance / Py.float num_segments)%Q in
      let '(actions, _, current_time) :=
        Py.for_range (Z.to_nat num_segments) 0
          (plateau_body start_pos going_up segment_distance base_duration
             num_segments)
          ([], start_pos, start_time) in
      let actions := actions ++ [mkAction current_time end_pos] in
      Some (actions, current_time, g)
  end.

(** ** Pause injector *)

Definition add_pause (start_time : Z) (g : rng) : Z * rng :=
  let '(pause_duration, g) := Random.randint 0 3000 g in
  (start_time + pause_duration, g).

(** ** Full-range cycle *)

(** [int((total_duration / 2) / (UP_SPEED_MULTIPLIER if going_up else 1.0))]. *)
Definition leg_duration (total_duration : Z) (going_up : bool) : Z :=
  Py.int ((Py.float total_duration / 2)
          / (if going_up then UP_SPEED_MULTIPLIER else 1))%Q.

Definition stroke_body (from to time0 leg : Z)
    (i : Z) (actions : list Action) : list Action :=
  let progress := (Py.float i / 7)%Q in
  let p := Py.int (Py.float from + Py.float (to - from) * progress)%Q in
  let time := time0 + Py.int (Py.float leg * progress) in
  actions ++ [mkAction time p].

Definition generate_full_stroke (start_pos start_time : Z) (speed_mult : Q)
    (g : rng) : list Action * Z * Z * rng :=
  let '(p0, p1, p2) :=
    if start_pos <? 50 then (start_pos, 100, 0) else (start_pos, 0, 100) in
  let '(total_duration, g) := Random.randint 10000 12000 g in
  let going_up_first := p1 >? p0 in
  let first_duration := leg_duration total_duration going_up_first in
  let actions :=
    Py.for_range 8 0 (stroke_body p0 p1 start_time first_duration) [] in
  let going_up_second := p2 >? p1 in
  let second_duration := leg_duration total_duration going_up_second in
  let actions :=
    Py.for_range 7 1
      (stroke_body p1 p2 (start_time + first_duration) second_duration)
      actions in
  (actions, start_time + first_duration + second_duration, p2, g).

(** ** Timeline finalizer *)

(** [sorted(l, key=key)]: Python's sort is stable; a stable insertion sort. *)
Fixpoint insert_by {A : Type} (key : A -> Z) (x : A) (l : list A) : list A :=
  match l with
  | [] => [x]
  | y :: r => if key x <=? key y then x :: l else y :: insert_by key x r
  end.

Definition sorted {A : Type} (key : A -> Z) (l : list A) : list A :=
  fold_right (insert_by key) [] l.

(** The deduplication loop: [last_time] is the timestamp kept last. *)
Fixpoint dedupe (last_time : Z) (actions : list Action) : list Action :=
  match actions with
  | [] => []
  | action :: rest =>
      if at_ action =? last_time then dedupe last_time rest
      else action :: dedupe (at_ action) rest
  end.

(** Sort by time and remove duplicates. *)
Definition finalize (actions : list Action) : list Action :=
  dedupe (-1) (sorted at_ actions).

(** ** Timeline scheduler *)

Inductive motion : Type := wave | gradual | plateau.

Record GenerationState : Type := mkState {
  actions : list Action;
  current_time : Z;
  current_pos : Z;
  full_stroke_times : list Z;
  full_stroke_index : nat;
  next_speed_change : Z;
  speed_multiplier : Q;
  in_speed_variation : bool;
  rand : rng
}.

(** How one pass through the loop body ends. *)
Inductive step : Type :=
| Continue (st : GenerationState)
| Break (st : GenerationState)
| Raise.

(** How a run ends. *)
Inductive outcome (A : Type) : Type :=
| Finished (a : A)
| Raised
| OutOfFuel.
Arguments Finished {A} a.
Arguments Raised {A}.
Arguments OutOfFuel {A}.

Definition draw_stroke_time (_ : Z) (s : list Z * rng) : list Z * rng :=
  let '(l, g) := s in
  let '(t, g) := Random.randint 60000 (DURATION_MS - 60000) g in
  (l ++ [t], g).

Definition initial_state (g : rng) : GenerationState :=
  let '(times, g) := Py.for_range 5 0 draw_stroke_time ([], g) in
  mkState [mkAction 0 50] 0 50 (sorted (fun t => t) times) 0
          SPEED_VARIATION_INTERVAL 1 false g.

(** Check if we need to change speed. *)
Definition update_speed (st : GenerationState) : GenerationState :=
  if current_time st >=? next_speed_change st then
    if in_speed_variation st then
      mkState (actions st) (current_time st) (current_pos st)
              (full_stroke_times st) (full_stroke_index st)
              (next_speed_change st + SPEED_VARIATION_INTERVAL)
              1 false (rand st)
    else
      let '(u, g) := Random.uniform (10 # 100) (30 # 100) (rand st) in
      mkState (actions st) (current_time st) (current_pos st)
              (full_stroke_times st) (full_stroke_index st)
              (next_speed_change st + SPEED_VARIATION_INTERVAL)
              (1 + u) true g
  else st.

(** Random pause (15% chance, avoiding during speed variations): the list
    and the time after it. *)
Definition maybe_pause (st : GenerationState) (g : rng) : list Action * Z * rng :=
  let '(u, g) := Random.random g in
  if Py.lt u (15 # 100) && negb (in_speed_variation st) then
    let '(pause_time, g) := add_pause (current_time st) g in
    if pause_time >? current_time st then
      (actions st ++ [mkAction pause_time (current_pos st)], pause_time, g)
    else (actions st, current_time st, g)
  else (actions st, current_time st, g).

(** Determine next position. *)
Definition choose_target (current_pos : Z) (g : rng) : Z * rng :=
  let '(u, g) := Random.random g in
  if Py.lt u (15 # 100) then Random.choice 15 [15; 20; 85; 90] g
  else if current_pos <? 35 then Random.randint 45 85 g
  else if current_pos >? 75 then Random.randint 25 65 g
  else Random.randint 25 85 g.

Section Scheduler.

Variables (sin cos : Q -> Q) (pi : Q).

Definition generate_motion (motion_type : motion) :
    Z -> Z -> Z -> Q -> rng -> option (list Action * Z * rng) :=
  match motion_type with
  | wave => generate_wave_motion sin pi
  | gradual => generate_gradual_motion cos pi
  | plateau => generate_plateau_motion
  end.

(** One pass through the body of [while current_time < DURATION_MS]. *)
Definition iteration (st0 : GenerationState) : step :=
  let st := update_speed st0 in
  if (full_stroke_index st <? length (full_stroke_times st))%nat
     && (current_time st >=? nth (full_stroke_index st) (full_stroke_times st) 0)
  then
    let '(stroke_actions, t, p, g) :=
      generate_full_stroke (current_pos st) (current_time st)
                           (speed_multiplier st) (rand st) in
    Continue (mkState (actions st ++ stroke_actions) t p
                      (full_stroke_times st) (S (full_stroke_index st))
                      (next_speed_change st) (speed_multiplier st)
                      (in_speed_variation st) g)
  else
    let '(acts, now, g) := maybe_pause st (rand st) in
    let '(motion_type, g) :=
      Random.choice wave [wave; gradual; plateau; gradual; wave] g in
    let '(target_pos, g) := choose_target (current_pos st) g in
    match generate_motion motion_type (current_pos st) target_pos now
                          (speed_multiplier st) g with
    | None => Raise
    | Some (new_actions, t, g) =>
        let st' :=
          mkState (acts ++ new_actions) t target_pos
                  (full_stroke_times st) (full_stroke_index st)
                  (next_speed_change st) (speed_multiplier st)
                  (in_speed_variation st) g in
        (* Safety check to prevent infinite loops *)
        if t >? DURATION_MS + 60000 then Break st' else Continue st'
    end.

Fixpoint while_loop (fuel : nat) (st : GenerationState) : outcome GenerationState :=
  match fuel with
  | O => OutOfFuel
  | S fuel' =>
      if current_time st <? DURATION_MS then
        match iteration st with
        | Continue st' => while_loop fuel' st'
        | Break st' => Finished st'
        | Raise => Raised
        end
      else Finished st
  end.

(** Ensure we end at a reasonable position; [actions[-1]] of an empty
    list is an [IndexError]. *)
Definition close_timeline (l : list Action) : outcome (list Action) :=
  match rev l with
  | [] => Raised
  | final :: _ =>
      if at_ final <? DURATION_MS then Finished (l ++ [mkAction DURATION_MS 50])
      else Finished l
  end.

(** The list [actions] as it stands when the finalizer's sort is reached. *)
Definition scheduled_actions (fuel : nat) (g : rng) : outcome (list Action) :=
  match while_loop fuel (initial_state g) with
  | Finished st => close_timeline (actions st)
  | Raised => Raised
  | OutOfFuel => OutOfFuel
  end.

Definition generate_edging_script (fuel : nat) (g : rng) : outcome (list Action) :=
  match scheduled_actions fuel g with
  | Finished l => Finished (finalize l)
  | Raised => Raised
  | OutOfFuel => OutOfFuel
  end.

End Scheduler.

(** ** Concrete stand-ins for [math.sin], [math.cos], [math.pi]

    [libm_pi] is the binary64 value of [math.pi].  [libm_sin] and [libm_cos]
    evaluate the Taylor polynomials of degree 41 and 40 in fixed point with
    60 fractional bits; they serve to run the generators, and every theorem
    below that depends on a value of the sine states what it assumes of it. *)

Definition libm_pi : Q := 884279719003555 # 281474976710656.

Definition fix_one : Z := 2 ^ 60.

Definition to_fix (x : Q) : Z := Qfloor (x * inject_Z fix_one).

(** Back to a float: rounded to 53 fractional bits. *)
Definition of_fix (z : Z) : Q := Qmake ((z + 64) / 128) (2 ^ 53).

(** [acc + term - term*x2/((k+1)(k+2)) + ...], [n] more terms. *)
Fixpoint alternating_series (n : nat) (x2 term k acc : Z) : Z :=
  match n with
  | O => acc
  | S n' =>
      let term' := - (term * x2 / fix_one) / ((k + 1) * (k + 2)) in
      alternating_series n' x2 term' (k + 2) (acc + term')
  end.

Definition libm_sin (x : Q) : Q :=
  let fx := to_fix x in
  of_fix (alternating_series 20 (fx * fx / fix_one) fx 1 fx).

Definition libm_cos (x : Q) : Q :=
  let fx := to_fix x in
  of_fix (alternating_series 20 (fx * fx / fix_one) fix_one 0 fix_one).

(** The totals [random.randint(10000, 12000)] can return. *)
Definition total_duration_band : list Z :=
  map (fun k => 10000 + Z.of_nat k) (seq 0 2001).

(** ** Tapes used to run the program *)

(** A tape that never repeats itself for long: a multiplicative hash of the
    cursor. *)
Definition hash_tape (k : nat) : Z :=
  ((Z.of_nat k + 1) * 6364136223846793005 + 1442695040888963407) mod 2 ^ 64
  / 2 ^ 11.

(** The raw output read as: no pause, plateau, no extreme target,
    [randint(25, 85) = 50]. *)
Definition stall_raw : Z := 4503599627370587.

(** The tape on which every draw returns [stall_raw]. *)
Definition stall_tape (_ : nat) : Z := stall_raw.


(** ** IEEE-754 binary64 evaluation of the float expressions *)

Module Binary64.

(** [float(z)] for an int below [2^53] in absolute value. *)
Definition of_int (z : Z) : PrimFloat.float :=
  if z <? 0 then (- PrimFloat.of_uint63 (Uint63.of_Z (- z)))%float
  else PrimFloat.of_uint63 (Uint63.of_Z z).

(** [int(x)] for a finite float: truncation toward zero.  (Where an
    infinity can reach [int], the caller tests [is_finite] first.) *)
Definition int (x : PrimFloat.float) : Z :=
  match Prim2SF x with
  | S754_finite s m e =>
      let v := if 0 <=? e then Z.pos m * 2 ^ e else Z.quot (Z.pos m) (2 ^ (- e)) in
      if s then - v else v
  | _ => 0
  end.

(** Whether a float is finite: neither an infinity nor a NaN. *)
Definition is_finite (x : PrimFloat.float) : bool :=
  match Prim2SF x with
  | S754_finite _ _ _ | S754_zero _ => true
  | _ => false
  end.

(** [calculate_duration] on binary64, for a product below [2^53]:
    [ZeroDivisionError] on a zero multiplier, and [OverflowError] (or
    [ValueError]) when [int] is handed an infinity (or a NaN). *)
Definition calculate_duration (distance : Z) (going_up : bool)
    (speed_multiplier : PrimFloat.float) : option Z :=
  if (speed_multiplier =? 0)%float then None
  else
    let duration :=
      (of_int (distance * base_ms_per_unit) / speed_multiplier)%float in
    let duration := if going_up then (duration / 1.5)%float else duration in
    if is_finite duration then Some (int duration) else None.

(** [leg_duration] on binary64. *)
Definition leg_duration (total_duration : Z) (going_up : bool) : Z :=
  int ((of_int total_duration / 2) / (if going_up then 1.5 else 1.0))%float.

(** [random.random() < 0.15] for the raw output [r]; the literal [0.15] is
    the binary64 value [0x1.3333333333333p-3]. *)
Definition pause_roll (r : Z) : bool :=
  (of_int (r mod 2 ^ 53) / of_int (2 ^ 53) <? 0x1.3333333333333p-3)%float.

(** [plateau_target] on binary64. *)
Definition plateau_target (start_pos end_pos i : Z) : Z :=
  let going_up := end_pos >? start_pos in
  let distance := Z.abs (end_pos - start_pos) in
  let segment_distance := (of_int distance / of_int 3)%float in
  int (of_int start_pos
       + segment_distance * of_int (i + 1) * of_int (if going_up then 1 else -1))%float.

(** The position of [stroke_sample] on binary64. *)
Definition stroke_pos (from to i : Z) : Z :=
  int (of_int from + of_int (to - from) * (of_int i / of_int 7))%float.

End Binary64.

(** ** Vocabulary of the properties *)

(** When the Duration Model raises: on a product too large for a float, on
    a zero multiplier, and on a quotient beyond the finite floats. *)
Definition duration_raises (distance : Z) (speed_multiplier : Q) : bool :=
  Py.overflows (Py.float (distance * base_ms_per_unit))
  || Qeq_bool speed_multiplier 0
  || Py.overflows (Py.float (distance * base_ms_per_unit) / speed_multiplier).

(** The generator after [n] draws. *)
Definition advance (n : nat) (g : rng) : rng :=
  mk_rng (tape g) (n + cursor g).

(** The value [random.randint(5, 10)] returns when it reads position [k]
    of the tape. *)
Definition wave_amplitude_at (g : rng) (k : nat) : Z :=
  5 + tape g k mod 6.

(** The value [random.randint(5, 7)] returns on [g]: [num_points] of the
    oscillating generator. *)
Definition wave_num_points (g : rng) : Z :=
  5 + tape g (cursor g) mod 3.

(** The value [random.randint(10000, 12000)] returns on [g]:
    [total_duration] of the full-range cycle. *)
Definition stroke_total_duration (g : rng) : Z :=
  10000 + tape g (cursor g) mod 2001.

(** The sample the oscillating generator appends at index [i] when the
    amplitude it drew for that sample is [wave_amplitude]. *)
Definition wave_sample_with_amplitude (sin : Q -> Q) (pi : Q) (wave_amplitude : Z)
    (start_pos end_pos start_time num_points base_duration : Z) (i : Z) : Action :=
  let progress := (Py.float i / Py.float num_points)%Q in
  let wave_offset :=
    if (i =? 0) || (i =? num_points) then 0%Q
    else (Py.float wave_amplitude * sin (progress * pi * 2))%Q in
  let p := (Py.float start_pos + Py.float (end_pos - start_pos) * progress
            + wave_offset)%Q in
  mkAction (start_time + Py.int (Py.float base_duration * progress))
           (Py.clamp (Py.int p)).

(** The sample the eased generator appends at index [i]. *)
Definition gradual_sample (cos : Q -> Q) (pi : Q)
    (start_pos end_pos start_time num_points base_duration : Z) (i : Z) : Action :=
  let progress := (Py.float i / Py.float num_points)%Q in
  let eased_progress := ((cos ((1 - progress) * pi) + 1) / 2)%Q in
  mkAction (start_time + Py.int (Py.float base_duration * progress))
           (Py.clamp (Py.int (Py.float start_pos
                              + Py.float (end_pos - start_pos) * eased_progress)%Q)).

(** The value [random.randint(8, 10)] returns on [g]: [num_points] of the
    eased generator. *)
Definition gradual_num_points (g : rng) : Z :=
  8 + tape g (cursor g) mod 3.

(** The sample a leg of the full-range cycle appends at index [i]. *)
Definition stroke_sample (from to time0 leg : Z) (i : Z) : Action :=
  let progress := (Py.float i / Py.float 7)%Q in
  mkAction (time0 + Py.int (Py.float leg * progress))
           (Py.int (Py.float from + Py.float (to - from) * progress)%Q).

(** The position the plateaued generator moves to in pass [i]. *)
Definition plateau_target (start_pos end_pos : Z) (i : Z) : Z :=
  Py.int (Py.float start_pos
          + Py.float (Z.abs (end_pos - start_pos)) / Py.float 3
            * Py.float (i + 1)
            * Py.float (if end_pos >? start_pos then 1 else -1))%Q.

(** The samples of the plateaued generator, [segment_duration] apart. *)
Definition plateau_samples (start_pos end_pos start_time seg : Z) : list Action :=
  [ mkAction start_time start_pos;
    mkAction (start_time + seg) (plateau_target start_pos end_pos 0);
    mkAction (start_time + seg + seg) (plateau_target start_pos end_pos 0);
    mkAction (start_time + seg + seg + seg) (plateau_target start_pos end_pos 1);
    mkAction (start_time + seg + seg + seg + seg) (plateau_target start_pos end_pos 1);
    mkAction (start_time + seg + seg + seg + seg + seg)
             (plateau_target start_pos end_pos 2);
    mkAction (start_time + seg + seg + seg + seg + seg + seg) end_pos ].

(** The samples of a full-range cycle through [p0], [p1], [p2] whose legs
    take [first] and [second] ms. *)
Definition stroke_samples (p0 p1 p2 start_time first second : Z) : list Action :=
  map (fun j => stroke_sample p0 p1 start_time first (Z.of_nat j)) (seq 0 8)
  ++ map (fun j => stroke_sample p1 p2 (start_time + first) second (1 + Z.of_nat j))
         (seq 0 7).

(** Order by a sort key. *)
Definition le_key {A : Type} (key : A -> Z) (x y : A) : Prop := key x <= key y.

(** Order of actions by timestamp. *)
Definition le_at (a b : Action) : Prop := at_ a <= at_ b.
Definition lt_at (a b : Action) : Prop := at_ a < at_ b.

(** Timestamps never decrease along [l], starting no earlier than [prev]. *)
Fixpoint ascending_from (prev : Z) (l : list Action) : Prop :=
  match l with
  | [] => True
  | a :: r => prev <= at_ a /\ ascending_from (at_ a) r
  end.

(** The timestamp of the last sample of [l], or [prev] when [l] is empty. *)
Fixpoint last_at (prev : Z) (l : list Action) : Z :=
  match l with
  | [] => prev
  | a :: r => last_at (at_ a) r
  end.

(** What a segment generator owes its caller: a non-empty run that starts
    at [start_time], ends at [end_time] and never goes back in time. *)
Definition segment_ok (start_time : Z) (samples : list Action) (end_time : Z) : Prop :=
  (exists first rest, samples = first :: rest /\ at_ first = start_time)
  /\ (exists init final, samples = init ++ [final] /\ at_ final = end_time)
  /\ Sorted le_at samples.

(** Every position of the run lies in [[0, 100]]. *)
Definition positions_in_range (samples : list Action) : Prop :=
  Forall (fun a => 0 <= pos a <= 100) samples.


(** The samples of a run, when the generator returned. *)
Definition samples_of (r : option (list Action * Z * rng)) : list Action :=
  match r with
  | Some (samples, _, _) => samples
  | None => []
  end.

(** The scheduler's invariant on the timeline: it starts with the sample
    [{at: 0, pos: 50}], timestamps never decrease, the last timestamp is
    [current_time], and the speed multiplier is positive. *)
Definition timeline_inv (st : GenerationState) : Prop :=
  (exists r, actions st = mkAction 0 50 :: r)
  /\ ascending_from 0 (actions st)
  /\ last_at 0 (actions st) = current_time st
  /\ (0 < speed_multiplier st)%Q.

Definition is_finished {A : Type} (o : outcome A) : bool :=
  match o with
  | Finished _ => true
  | _ => false
  end.

Definition is_raised {A : Type} (o : outcome A) : bool :=
  match o with
  | Raised => true
  | _ => false
  end.

(** The trigger times [initial_state] draws from [stall_tape]. *)
Definition stall_times : list Z :=
  full_stroke_times (initial_state (mk_rng stall_tape 0)).

(** The scheduler's state on [stall_tape] after any number of passes: only
    the list and the cursor change. *)
Definition stall_state (acts : list Action) (c : nat) : GenerationState :=
  mkState acts 0 50 stall_times 0 SPEED_VARIATION_INTERVAL 1 false
          (mk_rng stall_tape c).

(** What one pass appends on [stall_tape]: a plateaued move from 50 to 50. *)
Definition stall_samples : list Action :=
  plateau_samples 50 50 0 0.

(** The scheduler's invariant on positions and speed: the current position
    and every position emitted so far lie in [[0, 100]], and the speed
    multiplier is at least 1. *)
Definition bounds_inv (st : GenerationState) : Prop :=
  0 <= current_pos st <= 100
  /\ positions_in_range (actions st)
  /\ (1 <= speed_multiplier st)%Q.

(** The longest a pass of the loop can take: a pause of 3000 ms and a move
    of distance 100 at 150 ms per unit. *)
Definition MAX_STEP_MS : Z := 3000 + 100 * base_ms_per_unit.

(** ** The oscillating generator as the design document words it

    "amplitude drawn per-call from a small random range": one amplitude,
    drawn before the sampling loop and used for every sample of the call,
    the offset forced to zero at the first and the last sample. *)

Section WaveAsDocumented.

Variables (sin : Q -> Q) (pi : Q).



End WaveAsDocumented.

(** ** The entry point [main]

    Printing and the write of the output file are left out; what is
    modelled is the value handed to [json.dump]. *)

Record Metadata : Type := mkMetadata {
  title : String.string;
  description : String.string;
  duration : Z;
  average_speed : Z;
  creator : String.string;
  tags : list String.string
}.

Record Funscript : Type := mkFunscript {
  version : String.string;
  inverted : bool;
  range : Z;
  metadata : Metadata;
  script_actions : list Action
}.

(** [sum(abs(actions[i+1]["pos"] - actions[i]["pos"]) for i in range(len(actions)-1))]. *)
Fixpoint total_distance (actions : list Action) : Z :=
  match actions with
  | a :: ((b :: _) as rest) => Z.abs (pos b - pos a) + total_distance rest
  | _ => 0
  end.

(** Calculate average speed: [actions[-1]] of an empty list is an
    [IndexError], a last timestamp 0 a [ZeroDivisionError]. *)
Definition calculate_average_speed (actions : list Action) : outcome Z :=
  let total_distance := total_distance actions in
  match rev actions with
  | [] => Raised
  | final :: _ =>
      let total_time_seconds := (Py.float (at_ final) / 1000)%Q in
      match Py.div (Py.float total_distance) total_time_seconds with
      | None => Raised
      | Some avg => Finished (Py.int avg)
      end
  end.

Definition main (sin cos : Q -> Q) (pi : Q) (fuel : nat) (g : rng) : outcome Funscript :=
  match generate_edging_script sin cos pi fuel g with
  | Finished actions =>
      match calculate_average_speed actions with
      | Finished avg_speed =>
          Finished
            (mkFunscript "1.0"%string false 100
               (mkMetadata
                  "30-Minute Slow Edging Session"%string
                  "Slow edging script with fluid motions, speed variations, and full stroke intensifiers"%string
                  DURATION_MS avg_speed "Auto-generated"%string
                  ["edging"%string; "slow"%string; "teasing"%string;
                   "30-minutes"%string])
               actions)
      | Raised => Raised
      | OutOfFuel => OutOfFuel
      end
  | Raised => Raised
  | OutOfFuel => OutOfFuel
  end.

(** ** The full-stroke verifier [scripts/verify_full_strokes.py]

    The input is the list under the key ["actions"] of the file read;
    printing is left out, and the pattern string of a detected stroke is
    kept as its three positions. *)

(** [(i, a['at'], a['pos'])]. *)
Record Extreme : Type := mkExtreme { ex_index : nat; ex_time : Z; ex_pos : Z }.

(** [a['pos'] in [0, 100]]. *)
Definition is_extreme (p : Z) : bool := (p =? 0) || (p =? 100).

(** [[(i, a['at'], a['pos']) for i, a in enumerate(actions) if a['pos'] in [0, 100]]],
    the enumeration starting at [i]. *)
Fixpoint find_extremes (i : nat) (actions : list Action) : list Extreme :=
  match actions with
  | [] => []
  | a :: rest =>
      if is_extreme (pos a)
      then mkExtreme i (at_ a) (pos a) :: find_extremes (S i) rest
      else find_extremes (S i) rest
  end.






(** ** Vocabulary of the scheduler's state machine *)

(** The test of the loop body that inserts a full stroke. *)
Definition stroke_due (st : GenerationState) : bool :=
  (full_stroke_index st <? length (full_stroke_times st))%nat
  && (current_time st >=? nth (full_stroke_index st) (full_stroke_times st) 0).

(** The two states of the speed variation: normal speed, or a boost of 10%
    to 30%. *)
Definition speed_inv (st : GenerationState) : Prop :=
  (in_speed_variation st = false /\ (speed_multiplier st == 1)%Q)
  \/ (in_speed_variation st = true
      /\ ((11 # 10) <= speed_multiplier st <= (13 # 10))%Q).

(** Five trigger times inside the safety margins, and, while some are left,
    a current time early enough for all of them to fire before the loop
    ends. *)
Definition stroke_inv (st : GenerationState) : Prop :=
  length (full_stroke_times st) = 5%nat
  /\ Forall (fun t => 60000 <= t <= DURATION_MS - 60000) (full_stroke_times st)
  /\ (full_stroke_index st <= 5)%nat
  /\ ((full_stroke_index st < 5)%nat ->
      current_time st
      < DURATION_MS - 60000 + MAX_STEP_MS + 10000 * Z.of_nat (full_stroke_index st)).

(** The states the loop can be in at the top of a pass, on the draws [g]. *)
Inductive reachable (sin cos : Q -> Q) (pi : Q) (g : rng) : GenerationState -> Prop :=
| reach_initial : reachable sin cos pi g (initial_state g)
| reach_pass (st st' : GenerationState) :
    reachable sin cos pi g st ->
    current_time st < DURATION_MS ->
    iteration sin cos pi st = Continue st' ->
    reachable sin cos pi g st'.

(** The state after [n] passes of the loop from [st], when the loop
    condition holds before each of them and none leaves the loop. *)
Fixpoint passes (sin cos : Q -> Q) (pi : Q) (n : nat) (st : GenerationState)
    : option GenerationState :=
  match n with
  | O => Some st
  | S n' =>
      if current_time st <? DURATION_MS then
        match iteration sin cos pi st with
        | Continue st' => passes sin cos pi n' st'
        | _ => None
        end
      else None
  end.

(** ** The analyzer [scripts/analyze_funscript.py]

    The file read is taken to be a script as [main] writes it, so that the
    lookups of its keys succeed; the input of the model is the list under
    the key ["actions"].  Printing is left out: what is modelled are the
    values printed, in the order the code computes them.  A raised
    exception is [None]. *)

(** [[actions[i + 1]['at'] - actions[i]['at'] for i in range(len(actions) - 1)]]. *)
Fixpoint segment_durations (actions : list Action) : list Z :=
  match actions with
  | a :: ((b :: _) as rest) => (at_ b - at_ a) :: segment_durations rest
  | _ => []
  end.

(** [sum(l)] on ints and on floats. *)
Definition py_sum (l : list Z) : Z := fold_left Z.add l 0.
Definition py_fsum (l : list Q) : Q := fold_left Qplus l 0%Q.

(** [min(l)] and [max(l)]: a [ValueError] on an empty list. *)
Definition py_min (l : list Z) : option Z :=
  match l with
  | [] => None
  | x :: r => Some (fold_left Z.min r x)
  end.

Definition py_max (l : list Z) : option Z :=
  match l with
  | [] => None
  | x :: r => Some (fold_left Z.max r x)
  end.

(** [len(l)] as a float. *)
Definition py_len {A : Type} (l : list A) : Q := Py.float (Z.of_nat (length l)).

(** Find pauses (same position held for >500ms). *)
Fixpoint find_pauses (actions : list Action) : list Z :=
  match actions with
  | a :: ((b :: _) as rest) =>
      if pos a =? pos b then
        let duration := at_ b - at_ a in
        if duration >? 500 then duration :: find_pauses rest
        else find_pauses rest
      else find_pauses rest
  | _ => []
  end.

(** Analyze upward vs downward motion speeds: one pass of the loop, giving
    what it appends to [up_durations] and to [down_durations]. *)
Definition segment_speed (a b : Action) : option (list Q * list Q) :=
  let distance := Z.abs (pos b - pos a) in
  let duration := at_ b - at_ a in
  if (distance >? 5) && (duration >? 0) then
    match Py.div (Py.float distance) (Py.float duration / 1000) with
    | None => None
    | Some speed =>
        if pos b >? pos a then Some ([speed], [])
        else if pos b <? pos a then Some ([], [speed])
        else Some ([], [])
    end
  else Some ([], []).

(** The lists [up_durations] and [down_durations] of speeds, in units per
    second. *)
Fixpoint motion_speeds (actions : list Action) : option (list Q * list Q) :=
  match actions with
  | a :: ((b :: _) as rest) =>
      match segment_speed a b, motion_speeds rest with
      | Some (up, down), Some (ups, downs) => Some (up ++ ups, down ++ downs)
      | _, _ => None
      end
  | _ => Some ([], [])
  end.

(** The dictionary [pos_ranges], its keys in order. *)
Record PosRanges : Type := mkPosRanges {
  range_0_20 : Z;
  range_21_40 : Z;
  range_41_60 : Z;
  range_61_80 : Z;
  range_81_100 : Z
}.

Definition count_position (r : PosRanges) (action : Action) : PosRanges :=
  let p := pos action in
  if p <=? 20 then
    mkPosRanges (range_0_20 r + 1) (range_21_40 r) (range_41_60 r)
                (range_61_80 r) (range_81_100 r)
  else if p <=? 40 then
    mkPosRanges (range_0_20 r) (range_21_40 r + 1) (range_41_60 r)
                (range_61_80 r) (range_81_100 r)
  else if p <=? 60 then
    mkPosRanges (range_0_20 r) (range_21_40 r) (range_41_60 r + 1)
                (range_61_80 r) (range_81_100 r)
  else if p <=? 80 then
    mkPosRanges (range_0_20 r) (range_21_40 r) (range_41_60 r)
                (range_61_80 r + 1) (range_81_100 r)
  else
    mkPosRanges (range_0_20 r) (range_21_40 r) (range_41_60 r)
                (range_61_80 r) (range_81_100 r + 1).

Definition position_distribution (actions : list Action) : PosRanges :=
  fold_left count_position actions (mkPosRanges 0 0 0 0 0).

Definition range_counts (r : PosRanges) : list Z :=
  [range_0_20 r; range_21_40 r; range_41_60 r; range_61_80 r; range_81_100 r].

(** [sum(l) / len(l)] on floats, a [ZeroDivisionError] on an empty list. *)
Definition py_mean (l : list Q) : option Q := Py.div (py_fsum l) (py_len l).

(** [for ...: percentage = (count / len(actions)) * 100]. *)
Fixpoint percentages (counts : list Z) (n : Q) : option (list Q) :=
  match counts with
  | [] => Some []
  | c :: rest =>
      match Py.div (Py.float c) n, percentages rest n with
      | Some q, Some qs => Some ((q * 100)%Q :: qs)
      | _, _ => None
      end
  end.

Record Analysis : Type := mkAnalysis {
  total_actions : Z;
  duration_minutes : Q;
  avg_segment : Q;
  min_segment : Z;
  max_segment : Z;
  fluid_motions : Z;
  fluid_percent : Q;
  pauses : list Z;
  pause_summary : option (Q * Z);
  extreme_positions : Z;
  position_0 : Z;
  position_100 : Z;
  speed_summary : option (Q * Q * Q);
  pos_ranges : PosRanges;
  pos_percentages : list Q
}.

Definition count_if {A : Type} (f : A -> bool) (l : list A) : Z :=
  Z.of_nat (length (filter f l)).

(** The pause line, printed only [if pauses]. *)
Definition summarize_pauses (pauses : list Z) : option (option (Q * Z)) :=
  match pauses with
  | [] => Some None
  | _ =>
      match Py.div (Py.float (py_sum pauses)) (py_len pauses), py_max pauses with
      | Some avg, Some longest => Some (Some (avg, longest))
      | _, _ => None
      end
  end.

(** The speed lines, printed only [if up_durations and down_durations]. *)
Definition summarize_speeds (up down : list Q) : option (option (Q * Q * Q)) :=
  match up, down with
  | _ :: _, _ :: _ =>
      match py_mean up, py_mean down with
      | Some avg_up_speed, Some avg_down_speed =>
          match Py.div avg_up_speed avg_down_speed with
          | Some ratio => Some (Some (avg_up_speed, avg_down_speed, ratio))
          | None => None
          end
      | _, _ => None
      end
  | _, _ => Some None
  end.

Definition analyze_funscript (actions : list Action) : option Analysis :=
  match rev actions with
  | [] => None
  | final :: _ =>
      let duration_minutes := (Py.float (at_ final) / 1000 / 60)%Q in
      let durations := segment_durations actions in
      match Py.div (Py.float (py_sum durations)) (py_len durations),
            py_min durations, py_max durations with
      | Some avg_segment, Some min_segment, Some max_segment =>
          let fluid := count_if (fun d => d >? 40) durations in
          match Py.div (Py.float fluid) (py_len durations) with
          | None => None
          | Some fluid_ratio =>
              let pauses := find_pauses actions in
              let extremes := filter (fun a => is_extreme (pos a)) actions in
              match summarize_pauses pauses, motion_speeds actions with
              | Some pause_summary, Some (up_durations, down_durations) =>
                  match summarize_speeds up_durations down_durations,
                        percentages (range_counts (position_distribution actions))
                                    (py_len actions) with
                  | Some speed_summary, Some pos_percentages =>
                      Some (mkAnalysis
                              (Z.of_nat (length actions)) duration_minutes
                              avg_segment min_segment max_segment
                              fluid (fluid_ratio * 100)%Q
                              pauses pause_summary
                              (Z.of_nat (length extremes))
                              (count_if (fun a => pos a =? 0) extremes)
                              (count_if (fun a => pos a =? 100) extremes)
                              speed_summary
                              (position_distribution actions) pos_percentages)
                  | _, _ => None
                  end
              | _, _ => None
              end
          end
      | _, _, _ => None
      end
  end.

(** The total of the five counts. *)
Definition range_total (r : PosRanges) : Z := py_sum (range_counts r).

(** A short script to run the analysis on: a move up, a pause of 700 ms, a
    move down to 0 and a move up to 100. *)
Definition demo_actions : list Action :=
  [mkAction 0 50; mkAction 1000 60; mkAction 1700 60; mkAction 2500 0;
   mkAction 3000 100].

(** ** The sample times and the full-range cycle on binary64 *)

Module Binary64Generators.

(** [int(duration * progress)] with [progress = i / num_points], the offset
    of sample [i] from the start of its segment. *)
Definition sample_time (duration i num_points : Z) : Z :=
  Binary64.int (Binary64.of_int duration
                * (Binary64.of_int i / Binary64.of_int num_points))%float.

Definition stroke_body (from to time0 leg : Z)
    (i : Z) (actions : list Action) : list Action :=
  let p := Binary64.stroke_pos from to i in
  let time := time0 + sample_time leg i 7 in
  actions ++ [mkAction time p].

Definition generate_full_stroke (start_pos start_time : Z) (g : rng)
    : list Action * Z * Z * rng :=
  let '(p0, p1, p2) :=
    if start_pos <? 50 then (start_pos, 100, 0) else (start_pos, 0, 100) in
  let '(total_duration, g) := Random.randint 10000 12000 g in
  let going_up_first := p1 >? p0 in
  let first_duration := Binary64.leg_duration total_duration going_up_first in
  let actions :=
    Py.for_range 8 0 (stroke_body p0 p1 start_time first_duration) [] in
  let going_up_second := p2 >? p1 in
  let second_duration := Binary64.leg_duration total_duration going_up_second in
  let actions :=
    Py.for_range 7 1
      (stroke_body p1 p2 (start_time + first_duration) second_duration)
      actions in
  (actions, start_time + first_duration + second_duration, p2, g).

End Binary64Generators.

(** The same offset in exact arithmetic, as the segment generators of Part
    I compute it. *)
Definition sample_offset (base_duration i num_points : Z) : Z :=
  Py.int (Py.float base_duration * (Py.float i / Py.float num_points))%Q.

(** Truncation of a finite float by shifting: [Binary64.int], evaluated
    faster. *)
Definition trunc_shift (x : PrimFloat.float) : Z :=
  match Prim2SF x with
  | S754_finite s m e =>
      let v := if 0 <=? e then Z.pos m * 2 ^ e else Z.shiftr (Z.pos m) (- e) in
      if s then - v else v
  | _ => 0
  end.

Definition sample_time_shift (duration i num_points : Z) : Z :=
  trunc_shift (Binary64.of_int duration
               * (Binary64.of_int i / Binary64.of_int num_points))%float.

(** The integers [0 .. n - 1]. *)
Definition upto (n : Z) : list Z := map Z.of_nat (seq 0 (Z.to_nat n)).

(** The offset [b] is the exact offset of sample [i] or 1 ms less. *)
Definition offset_close (base_duration num_points i b : Z) : bool :=
  let q := sample_offset base_duration i num_points in
  (q - 1 <=? b) && (b <=? q).

(** A scan of the samples [i .. i + k] of a segment, [b] being the offset
    of sample [i] on binary64: every offset is close to the exact one and
    no later than the next, and the last one is [base_duration]. *)
Fixpoint scan_samples (base_duration num_points : Z) (k : nat) (i b : Z) : bool :=
  offset_close base_duration num_points i b
  && match k with
     | O => b =? base_duration
     | S k' =>
         let next := sample_time_shift base_duration (i + 1) num_points in
         (b <=? next) && scan_samples base_duration num_points k' (i + 1) next
     end.

Definition sample_times_ok (base_duration : Z) : bool :=
  forallb (fun num_points =>
             (sample_time_shift base_duration 0 num_points =? 0)
             && scan_samples base_duration num_points (Z.to_nat num_points) 0
                  (sample_time_shift base_duration 0 num_points))
          [5; 6; 7; 8; 9; 10].

(** The scan, for the two durations of a move of [distance] units at
    normal speed. *)
Definition normal_sample_times_ok (distance : Z) : bool :=
  forallb (fun up =>
             match Binary64.calculate_duration distance up 1 with
             | Some base_duration => sample_times_ok base_duration
             | None => false
             end)
          [true; false].

(** The duration of a move at normal speed ([speed_mult = 1.0]), compared
    on binary64 and in exact arithmetic. *)
Definition normal_duration_agrees (distance : Z) : bool :=
  forallb (fun up =>
             match calculate_duration distance up 1,
                   Binary64.calculate_duration distance up 1 with
             | Some d, Some b => d =? b
             | _, _ => false
             end)
          [true; false].

(** The positions and offsets of the samples of a full-range cycle,
    compared on binary64 and in exact arithmetic. *)
Definition stroke_positions_agree (from : Z) : bool :=
  forallb (fun to =>
             forallb (fun i => Binary64.stroke_pos from to i
                               =? pos (stroke_sample from to 0 0 i))
                     (upto 8))
          [0; 100].

(** The lengths a leg can have: a third or a half of a total duration of
    10000 to 12000 ms. *)
Definition leg_band : list Z :=
  map (fun k => 3333 + k) (upto 668) ++ map (fun k => 5000 + k) (upto 1001).

Definition stroke_times_agree (leg : Z) : bool :=
  forallb (fun i => sample_time_shift leg i 7 =? sample_offset leg i 7) (upto 8).

(** [Binary64.plateau_target], truncating by shifting. *)
Definition plateau_target_shift (start_pos end_pos i : Z) : Z :=
  let going_up := end_pos >? start_pos in
  let distance := Z.abs (end_pos - start_pos) in
  let segment_distance := (Binary64.of_int distance / Binary64.of_int 3)%float in
  trunc_shift (Binary64.of_int start_pos
               + segment_distance * Binary64.of_int (i + 1)
                 * Binary64.of_int (if going_up then 1 else -1))%float.

(** The hold positions of the plateaued generator, compared on binary64
    and in exact arithmetic. *)
Definition plateau_agrees (start_pos end_pos : Z) : bool :=
  forallb (fun i => plateau_target_shift start_pos end_pos i
                    =? plateau_target start_pos end_pos i)
          (upto 3).

(** * Part II: properties *)

(** ** Equalities of options and pairs *)

Lemma Some_eq {A : Type} (x y : A) : Some x = Some y -> x = y.
Proof. congruence. Qed.

Lemma pair_eq {A B : Type} (a a' : A) (b b' : B) :
  (a, b) = (a', b') -> a = a' /\ b = b'.
Proof. intros H. split; congruence. Qed.

(** ** Python numerics *)

Lemma Py_int_nonneg (x : Q) : (0 <= x)%Q -> Py.int x = Qfloor x.
Proof.
  intros H. unfold Py.int.
  destruct (Qle_bool 0 x) eqn:E; [reflexivity|].
  apply Qle_bool_iff in H. congruence.
Qed.

Lemma Py_int_float (z : Z) : Py.int (Py.float z) = z.
Proof.
  unfold Py.int, Py.float.
  destruct (Qle_bool 0 (inject_Z z)); [apply Qfloor_Z | apply Qceiling_Z].
Qed.

Lemma Py_int_mono (x y : Q) : (x <= y)%Q -> Py.int x <= Py.int y.
Proof.
  intros H. unfold Py.int.
  destruct (Qle_bool 0 x) eqn:Ex; destruct (Qle_bool 0 y) eqn:Ey.
  - now apply Qfloor_resp_le.
  - apply Qle_bool_iff in Ex.
    assert (Hy : (0 <= y)%Q) by (eapply Qle_trans; eauto).
    apply Qle_bool_iff in Hy. congruence.
  - assert (Hx : (x <= 0)%Q).
    { apply Qlt_le_weak, Qnot_le_lt. intro C.
      apply Qle_bool_iff in C. congruence. }
    apply Qle_bool_iff in Ey.
    apply Qceiling_resp_le in Hx. apply Qfloor_resp_le in Ey.
    change (Qceiling 0) with 0 in Hx. change (Qfloor 0) with 0 in Ey. lia.
  - now apply Qceiling_resp_le.
Qed.

Lemma Py_int_comp (x y : Q) : (x == y)%Q -> Py.int x = Py.int y.
Proof.
  intros H.
  assert (Py.int x <= Py.int y) by (apply Py_int_mono; rewrite H; apply Qle_refl).
  assert (Py.int y <= Py.int x) by (apply Py_int_mono; rewrite H; apply Qle_refl).
  lia.
Qed.

Lemma Py_int_zero (x : Q) : (x == 0)%Q -> Py.int x = 0.
Proof. intros H. now rewrite (Py_int_comp _ _ H). Qed.

Lemma Py_int_nonneg_le (x : Q) : (0 <= x)%Q -> 0 <= Py.int x.
Proof. intros H. change 0 with (Py.int 0). now apply Py_int_mono. Qed.

Lemma Py_clamp_range (p : Z) : 0 <= Py.clamp p <= 100.
Proof. unfold Py.clamp. lia. Qed.

Lemma Py_clamp_id (p : Z) : 0 <= p <= 100 -> Py.clamp p = p.
Proof. unfold Py.clamp. lia. Qed.

Lemma Py_float_le (a b : Z) : a <= b -> (Py.float a <= Py.float b)%Q.
Proof. intros H. unfold Py.float. now rewrite <- Zle_Qle. Qed.

Lemma Py_float_pos (a : Z) : 0 < a -> (0 < Py.float a)%Q.
Proof.
  intros H. change (inject_Z 0 < inject_Z a)%Q. now rewrite <- Zlt_Qlt.
Qed.

Lemma Py_div_pos (a b : Q) : (0 < b)%Q -> Py.div a b = Some (a / b)%Q.
Proof.
  intros H. unfold Py.div.
  destruct (Qeq_bool b 0) eqn:E; [|reflexivity].
  apply Qeq_bool_iff in E. rewrite E in H. now apply Qlt_irrefl in H.
Qed.

(** ** Time offsets inside a segment: [int(base_duration * (i / n))] *)

Lemma progress_nonneg (i n : Z) :
  0 <= i -> 0 < n -> (0 <= Py.float i / Py.float n)%Q.
Proof.
  intros Hi Hn. apply Qle_shift_div_l.
  - now apply Py_float_pos.
  - rewrite Qmult_0_l. now apply (Py_float_le 0 i).
Qed.

Lemma progress_mono (i j n : Z) :
  i <= j -> 0 < n -> (Py.float i / Py.float n <= Py.float j / Py.float n)%Q.
Proof.
  intros Hij Hn. unfold Qdiv. apply Qmult_le_compat_r.
  - now apply Py_float_le.
  - apply Qlt_le_weak, Qinv_lt_0_compat. now apply Py_float_pos.
Qed.

Lemma progress_full (n : Z) : 0 < n -> (Py.float n / Py.float n == 1)%Q.
Proof.
  intros Hn. apply Qmult_inv_r. intro C.
  apply Py_float_pos in Hn. rewrite C in Hn. now apply Qlt_irrefl in Hn.
Qed.

Lemma offset_zero (base n : Z) :
  Py.int (Py.float base * (Py.float 0 / Py.float n)) = 0.
Proof.
  apply Py_int_zero. unfold Qdiv. change (Py.float 0) with 0%Q.
  now rewrite Qmult_0_l, Qmult_0_r.
Qed.

Lemma offset_full (base n : Z) :
  0 < n -> Py.int (Py.float base * (Py.float n / Py.float n)) = base.
Proof.
  intros Hn. rewrite <- (Py_int_float base) at 2. apply Py_int_comp.
  rewrite (progress_full n Hn). apply Qmult_1_r.
Qed.

Lemma offset_mono (base n i j : Z) :
  0 <= base -> 0 < n -> i <= j ->
  Py.int (Py.float base * (Py.float i / Py.float n))
  <= Py.int (Py.float base * (Py.float j / Py.float n)).
Proof.
  intros Hb Hn Hij. apply Py_int_mono.
  rewrite !(Qmult_comm (Py.float base)). apply Qmult_le_compat_r.
  - now apply progress_mono.
  - now apply (Py_float_le 0 base).
Qed.

Lemma offset_nonneg (base n i : Z) :
  0 <= base -> 0 < n -> 0 <= i ->
  0 <= Py.int (Py.float base * (Py.float i / Py.float n)).
Proof.
  intros Hb Hn Hi. rewrite <- (offset_zero base n). now apply offset_mono.
Qed.

(** ** Duration Model *)

Lemma Py_OVERFLOW_INT_value : Py.OVERFLOW_INT = 2 ^ 1024 - 2 ^ 970.
Proof. vm_compute. reflexivity. Qed.

Lemma Py_overflows_small (x : Q) (b : Z) :
  b < Py.OVERFLOW_INT -> (Qabs x <= Py.float b)%Q -> Py.overflows x = false.
Proof.
  intros Hb Hx. unfold Py.overflows, Py.OVERFLOW, Py.float in *.
  set (W := Py.OVERFLOW_INT) in *.
  destruct (Qle_bool (inject_Z W) (Qabs x)) eqn:E; [|reflexivity].
  apply Qle_bool_iff in E.
  assert (H : (inject_Z W <= inject_Z b)%Q) by (eapply Qle_trans; eassumption).
  rewrite <- Zle_Qle in H. lia.
Qed.

Lemma calculate_duration_eq (d : Z) (up : bool) (m : Q) :
  calculate_duration d up m
  = if duration_raises d m then None
    else Some (Py.int (if up
                       then Py.float (d * base_ms_per_unit) / m / UP_SPEED_MULTIPLIER
                       else Py.float (d * base_ms_per_unit) / m)%Q).
Proof.
  unfold calculate_duration, duration_raises, Py.div.
  destruct (Py.overflows (Py.float (d * base_ms_per_unit))); [reflexivity|].
  destruct (Qeq_bool m 0); [reflexivity|]. cbn [orb].
  destruct (Py.overflows (Py.float (d * base_ms_per_unit) / m)); [reflexivity|].
  now destruct up.
Qed.

Lemma calculate_duration_pos (d : Z) (up : bool) (m : Q) :
  duration_raises d m = false ->
  calculate_duration d up m
  = Some (Py.int (if up
                  then Py.float (d * base_ms_per_unit) / m / UP_SPEED_MULTIPLIER
                  else Py.float (d * base_ms_per_unit) / m)%Q).
Proof. intros H. now rewrite calculate_duration_eq, H. Qed.

Lemma calculate_duration_raises (d : Z) (up : bool) (m : Q) :
  calculate_duration d up m = None <-> duration_raises d m = true.
Proof.
  rewrite calculate_duration_eq. destruct (duration_raises d m); split;
    intros H; reflexivity || discriminate H.
Qed.

Lemma raw_duration_nonneg (d : Z) (m : Q) :
  0 <= d -> (0 < m)%Q -> (0 <= Py.float (d * base_ms_per_unit) / m)%Q.
Proof.
  intros Hd Hm. apply Qle_shift_div_l; [assumption|].
  rewrite Qmult_0_l. apply (Py_float_le 0). unfold base_ms_per_unit. lia.
Qed.

Lemma up_scaling_le (x : Q) : (0 <= x)%Q -> (0 <= x / UP_SPEED_MULTIPLIER <= x)%Q.
Proof.
  intros Hx. unfold UP_SPEED_MULTIPLIER, Qdiv.
  change (/ (3 # 2))%Q with (2 # 3)%Q. split; lra.
Qed.

(** A duration the Duration Model returns for a positive multiplier is not
    negative. *)
Lemma calculate_duration_some_nonneg (d : Z) (up : bool) (m : Q) (t : Z) :
  0 <= d -> (0 < m)%Q -> calculate_duration d up m = Some t -> 0 <= t.
Proof.
  intros Hd Hm. rewrite calculate_duration_eq.
  destruct (duration_raises d m); [discriminate|].
  intros H. injection H as <-. apply Py_int_nonneg_le.
  pose proof (raw_duration_nonneg d m Hd Hm) as H.
  destruct up; [apply (up_scaling_le _ H) | exact H].
Qed.

Lemma calculate_duration_nonneg (d : Z) (up : bool) (m : Q) :
  0 <= d -> (0 < m)%Q -> duration_raises d m = false ->
  exists t, calculate_duration d up m = Some t /\ 0 <= t.
Proof.
  intros Hd Hm Hr. rewrite (calculate_duration_pos d up m Hr).
  eexists. split; [reflexivity|]. apply Py_int_nonneg_le.
  pose proof (raw_duration_nonneg d m Hd Hm) as H.
  destruct up; [apply (up_scaling_le _ H) | exact H].
Qed.

(** The moves the scheduler asks for do not raise: a distance of at most
    100 units and a multiplier of at least 1. *)
Lemma duration_raises_small (d : Z) (m : Q) :
  0 <= d <= 100 -> (1 <= m)%Q -> duration_raises d m = false.
Proof.
  intros Hd Hm. unfold duration_raises.
  assert (Hbig : 15000 < Py.OVERFLOW_INT) by (vm_compute; reflexivity).
  assert (Ha : (0 <= Py.float (d * base_ms_per_unit) <= Py.float 15000)%Q).
  { split; [apply (Py_float_le 0) | apply Py_float_le];
      unfold base_ms_per_unit; lia. }
  assert (Hq : (0 <= Py.float (d * base_ms_per_unit) / m
                <= Py.float (d * base_ms_per_unit))%Q).
  { split.
    - apply Qle_shift_div_l; [lra|]. rewrite Qmult_0_l. apply Ha.
    - apply Qle_shift_div_r; [lra|].
      set (a := Py.float (d * base_ms_per_unit)) in *.
      assert (E : (a * m == a + a * (m - 1))%Q) by ring.
      rewrite E. assert (H0 : (0 <= a * (m - 1))%Q).
      { apply Qmult_le_0_compat; [apply Ha | lra]. }
      lra. }
  rewrite (Py_overflows_small _ 15000 Hbig).
  2:{ rewrite Qabs_pos by apply Ha. apply Ha. }
  rewrite (Py_overflows_small _ 15000 Hbig).
  2:{ rewrite Qabs_pos by apply Hq. eapply Qle_trans; [apply Hq | apply Ha]. }
  destruct (Qeq_bool m 0) eqn:E; [|reflexivity].
  apply Qeq_bool_iff in E. lra.
Qed.

(** C2, as stated, fails: at distance 1 and speed multiplier 200 the raw
    durations are 0.5 ms (increasing) and 0.75 ms (decreasing); [int]
    truncates both to 0, so the increasing move is not strictly shorter.
    The same holds on binary64, where the two quotients are exact. *)
Lemma calculate_duration_not_strict :
  exists up down,
    calculate_duration 1 true 200 = Some up
    /\ calculate_duration 1 false 200 = Some down
    /\ up = 0 /\ down = 0
    /\ Binary64.calculate_duration 1 true 200 = Some up
    /\ Binary64.calculate_duration 1 false 200 = Some down.
Proof. exists 0, 0. repeat split; vm_compute; reflexivity. Qed.

(** C2, amended: for every distance [d > 0] and speed multiplier [m > 0]
    the Duration Model raises for both directions or for neither.  It
    raises ([OverflowError]) when [150 * d] or [150 * d / m] is beyond the
    finite floats.  Otherwise the duration of the increasing move is at
    most the one of the decreasing move, and strictly smaller whenever the
    decreasing move takes at least 2 ms.  The bound 2 is the least one: at
    distance 1 and multiplier 100 both moves take 1 ms. *)
Theorem calculate_duration_up_le_down (d : Z) (m : Q) :
  0 < d -> (0 < m)%Q ->
  (duration_raises d m = true ->
   calculate_duration d true m = None /\ calculate_duration d false m = None)
  /\ (duration_raises d m = false ->
      exists up down,
        calculate_duration d true m = Some up
        /\ calculate_duration d false m = Some down
        /\ up <= down
        /\ (2 <= down -> up < down))
  /\ calculate_duration 1 true 100 = Some 1
  /\ calculate_duration 1 false 100 = Some 1.
Proof.
  intros Hd Hm. split; [|split; [|split; vm_compute; reflexivity]].
  { intros Hr. rewrite !calculate_duration_eq, Hr. now split. }
  intros Hr. rewrite !(calculate_duration_pos d _ m Hr).
  set (x := (Py.float (d * base_ms_per_unit) / m)%Q).
  assert (Hx : (0 <= x)%Q) by (apply raw_duration_nonneg; [lia | assumption]).
  destruct (up_scaling_le x Hx) as [Hu0 Hu].
  exists (Py.int (x / UP_SPEED_MULTIPLIER)), (Py.int x).
  split; [reflexivity|]. split; [reflexivity|]. split.
  - now apply Py_int_mono.
  - rewrite (Py_int_nonneg _ Hx), (Py_int_nonneg _ Hu0). intros H2.
    pose proof (Qfloor_le (x / UP_SPEED_MULTIPLIER)) as Hfu.
    pose proof (Qlt_floor x) as Hlx.
    rewrite inject_Z_plus in Hlx. change (inject_Z 1) with 1%Q in Hlx.
    assert (H2q : (2 <= inject_Z (Qfloor x))%Q).
    { change 2%Q with (inject_Z 2). now rewrite <- Zle_Qle. }
    assert (Hy : (x / UP_SPEED_MULTIPLIER == x * (2 # 3))%Q).
    { unfold UP_SPEED_MULTIPLIER, Qdiv. change (/ (3 # 2))%Q with (2 # 3)%Q.
      reflexivity. }
    rewrite Zlt_Qlt. set (y := (x / UP_SPEED_MULTIPLIER)%Q) in *. lra.
Qed.

Lemma calculate_duration_up_le_down_witness :
  exists up down,
    calculate_duration 10 true 1 = Some up
    /\ calculate_duration 10 false 1 = Some down
    /\ up <= down
    /\ (2 <= down -> up < down).
Proof.
  destruct (calculate_duration_up_le_down 10 1 eq_refl eq_refl) as [_ [H _]].
  apply H. vm_compute. reflexivity.
Defined.

(** ** Runs of samples *)

Lemma ascending_from_weaken (p q : Z) (l : list Action) :
  q <= p -> ascending_from p l -> ascending_from q l.
Proof. destruct l; simpl; [trivial|]. intros Hq [H1 H2]. split; [lia | assumption]. Qed.

Lemma ascending_from_app (p : Z) (l1 l2 : list Action) :
  ascending_from p (l1 ++ l2)
  <-> ascending_from p l1 /\ ascending_from (last_at p l1) l2.
Proof.
  revert p. induction l1 as [|a l1 IH]; intros p; simpl.
  - tauto.
  - rewrite IH. tauto.
Qed.

Lemma last_at_app (p : Z) (l1 l2 : list Action) :
  last_at p (l1 ++ l2) = last_at (last_at p l1) l2.
Proof. revert p. induction l1 as [|a l1 IH]; intros p; simpl; [reflexivity | apply IH]. Qed.

Lemma last_at_snoc (p : Z) (l : list Action) (a : Action) :
  last_at p (l ++ [a]) = at_ a.
Proof. now rewrite last_at_app. Qed.

Lemma last_at_ge (p : Z) (l : list Action) :
  ascending_from p l -> p <= last_at p l.
Proof.
  revert p. induction l as [|a l IH]; intros p; simpl; [lia|].
  intros [H1 H2]. specialize (IH _ H2). lia.
Qed.

Lemma ascending_from_Sorted (p : Z) (l : list Action) :
  ascending_from p l -> Sorted le_at l.
Proof.
  revert p. induction l as [|a l IH]; intros p; simpl; [constructor|].
  intros [_ H]. constructor; [now apply (IH (at_ a))|].
  destruct l as [|b l]; constructor. exact (proj1 H).
Qed.

Lemma Sorted_ascending_from (a : Action) (l : list Action) :
  Sorted le_at (a :: l) -> ascending_from (at_ a) (a :: l).
Proof.
  revert a. induction l as [|b l IH]; intros a H; simpl.
  - split; [lia | trivial].
  - inversion H as [|? ? Hs Hr]; subst. inversion Hr; subst.
    split; [lia|]. split; [assumption|]. exact (proj2 (IH b Hs)).
Qed.

(** A run listed by index: [f a; f (a+1); ...; f (a+k-1)]. *)
Lemma ascending_from_map_seq (f : nat -> Action) (p : Z) (a k : nat) :
  p <= at_ (f a) ->
  (forall j, (a <= j)%nat -> (S j < a + k)%nat -> at_ (f j) <= at_ (f (S j))) ->
  ascending_from p (map f (seq a k)).
Proof.
  revert p a. induction k as [|k IH]; intros p a Hp Hstep; simpl; [trivial|].
  split; [assumption|]. destruct k as [|k]; [simpl; trivial|].
  apply IH.
  - apply Hstep; lia.
  - intros j Hj1 Hj2. apply Hstep; lia.
Qed.

Lemma last_at_map_seq (f : nat -> Action) (p : Z) (a k : nat) :
  last_at p (map f (seq a (S k))) = at_ (f (a + k)%nat).
Proof.
  rewrite seq_S, map_app. simpl. apply last_at_snoc.
Qed.

Lemma segment_ok_intro (t t' : Z) (a : Action) (l : list Action) :
  at_ a = t -> ascending_from t (a :: l) -> last_at t (a :: l) = t' ->
  segment_ok t (a :: l) t'.
Proof.
  intros Ha Hasc Hlast. split; [|split].
  - now exists a, l.
  - destruct (exists_last (l := a :: l)) as [init [final E]]; [discriminate|].
    exists init, final. split; [assumption|].
    rewrite E in Hlast. now rewrite last_at_snoc in Hlast.
  - now apply (ascending_from_Sorted t).
Qed.

Lemma segment_ok_elim (t t' : Z) (l : list Action) :
  segment_ok t l t' ->
  l <> [] /\ ascending_from t l /\ last_at t l = t' /\ t <= t'.
Proof.
  intros [[a [r [E Ha]]] [[init [final [E' Hf]]] Hs]].
  assert (Hasc : ascending_from t l).
  { subst l t. now apply Sorted_ascending_from. }
  assert (Hlast : last_at t l = t').
  { rewrite E'. rewrite last_at_snoc. exact Hf. }
  repeat split; try assumption.
  - subst l. discriminate.
  - rewrite <- Hlast. now apply last_at_ge.
Qed.

(** ** [for] loops that append one sample per pass *)

Lemma for_range_ext {S : Type} (body body' : Z -> S -> S) (n : nat) (i : Z) (s : S) :
  (forall j s, body j s = body' j s) ->
  Py.for_range n i body s = Py.for_range n i body' s.
Proof.
  intros H. revert i s. induction n as [|n IH]; intros i s; simpl; [reflexivity|].
  rewrite H. apply IH.
Qed.

Lemma for_range_append {A : Type} (f : Z -> A) (n : nat) (i : Z) (acc : list A) :
  Py.for_range n i (fun j l => l ++ [f j]) acc
  = acc ++ map (fun j => f (i + Z.of_nat j)) (seq 0 n).
Proof.
  revert i acc. induction n as [|n IH]; intros i acc.
  - simpl. now rewrite app_nil_r.
  - cbn [Py.for_range]. rewrite IH. cbn [seq map].
    rewrite <- app_assoc. cbn [app]. rewrite Z.add_0_r.
    rewrite <- seq_shift, map_map. do 2 f_equal.
    apply map_ext. intros j. f_equal. lia.
Qed.

(** ** The [random] module *)

Lemma randint_eq (a b : Z) (g : rng) :
  Random.randint a b g = (a + tape g (cursor g) mod (b - a + 1), advance 1 g).
Proof. reflexivity. Qed.

Lemma random_eq (g : rng) :
  Random.random g = (Qmake (tape g (cursor g) mod 2 ^ 53) (2 ^ 53), advance 1 g).
Proof. reflexivity. Qed.

Lemma randint_range (a b : Z) (g : rng) :
  a <= b -> a <= fst (Random.randint a b g) <= b.
Proof.
  intros H. rewrite randint_eq. simpl.
  pose proof (Z.mod_pos_bound (tape g (cursor g)) (b - a + 1)). lia.
Qed.

Lemma random_range (g : rng) :
  (0 <= fst (Random.random g) < 1)%Q.
Proof.
  rewrite random_eq. simpl.
  pose proof (Z.mod_pos_bound (tape g (cursor g)) (2 ^ 53) eq_refl) as H.
  unfold Qle, Qlt. simpl. lia.
Qed.

Lemma uniform_range (a b : Q) (g : rng) :
  (a <= b)%Q -> (a <= fst (Random.uniform a b g) <= b)%Q.
Proof.
  intros H. unfold Random.uniform.
  pose proof (random_range g) as Hu.
  destruct (Random.random g) as [u g']. simpl in *.
  split; nra.
Qed.

Lemma advance_advance (n k : nat) (g : rng) :
  advance n (advance k g) = advance (n + k) g.
Proof. unfold advance. simpl. f_equal. lia. Qed.

Lemma wave_num_points_range (g : rng) : 5 <= wave_num_points g <= 7.
Proof.
  unfold wave_num_points. pose proof (Z.mod_pos_bound (tape g (cursor g)) 3). lia.
Qed.

Lemma gradual_num_points_range (g : rng) : 8 <= gradual_num_points g <= 10.
Proof.
  unfold gradual_num_points. pose proof (Z.mod_pos_bound (tape g (cursor g)) 3). lia.
Qed.


Lemma stroke_total_duration_range (g : rng) :
  10000 <= stroke_total_duration g <= 12000.
Proof.
  unfold stroke_total_duration.
  pose proof (Z.mod_pos_bound (tape g (cursor g)) 2001). lia.
Qed.

(** ** The oscillating generator in closed form *)

Section WaveClosedForm.

Variables (sin : Q -> Q) (pi : Q).
Variables (start_pos end_pos start_time num_points base_duration : Z).

Lemma wave_body_eq (i : Z) (acc : list Action) (g : rng) :
  wave_body sin pi start_pos end_pos start_time num_points base_duration i (acc, g)
  = (acc ++ [wave_sample_with_amplitude sin pi (wave_amplitude_at g (cursor g))
               start_pos end_pos start_time num_points base_duration i],
     advance 1 g).
Proof. reflexivity. Qed.

Lemma wave_loop (k : nat) (i : Z) (acc : list Action) (g : rng) :
  Py.for_range k i
    (wave_body sin pi start_pos end_pos start_time num_points base_duration)
    (acc, g)
  = (acc ++ map (fun j =>
                   wave_sample_with_amplitude sin pi
                     (wave_amplitude_at g (cursor g + j))
                     start_pos end_pos start_time num_points base_duration
                     (i + Z.of_nat j))
                (seq 0 k),
     advance k g).
Proof.
  revert i acc g. induction k as [|k IH]; intros i acc g.
  - simpl. rewrite app_nil_r. now destruct g.
  - cbn [Py.for_range]. rewrite wave_body_eq, IH.
    rewrite advance_advance. replace (k + 1)%nat with (S k) by lia.
    f_equal. cbn [seq map]. rewrite <- app_assoc. cbn [app].
    rewrite Z.add_0_r, Nat.add_0_r.
    rewrite <- seq_shift, map_map. do 2 f_equal.
    apply map_ext. intros j. unfold advance, wave_amplitude_at. cbn [tape cursor].
    replace (1 + cursor g + j)%nat with (cursor g + S j)%nat by lia.
    f_equal. lia.
Qed.

End WaveClosedForm.

Lemma generate_wave_motion_eq (sin : Q -> Q) (pi : Q)
    (start_pos end_pos start_time : Z) (speed_mult : Q) (g : rng) (base : Z) :
  calculate_duration (Z.abs (end_pos - start_pos)) (end_pos >? start_pos) speed_mult
  = Some base ->
  generate_wave_motion sin pi start_pos end_pos start_time speed_mult g
  = Some (map (fun j =>
                 wave_sample_with_amplitude sin pi
                   (wave_amplitude_at g (S (cursor g) + j))
                   start_pos end_pos start_time (wave_num_points g) base
                   (Z.of_nat j))
              (seq 0 (S (Z.to_nat (wave_num_points g)))),
          start_time + base,
          advance (S (S (Z.to_nat (wave_num_points g)))) g).
Proof.
  intros Hd. unfold generate_wave_motion. rewrite randint_eq.
  change (5 + tape g (cursor g) mod (7 - 5 + 1)) with (wave_num_points g).
  cbv zeta. rewrite Hd, wave_loop.
  pose proof (wave_num_points_range g) as Hn.
  replace (Z.to_nat (wave_num_points g + 1)) with (S (Z.to_nat (wave_num_points g))) by lia.
  rewrite advance_advance.
  replace (S (Z.to_nat (wave_num_points g)) + 1)%nat
    with (S (S (Z.to_nat (wave_num_points g)))) by lia.
  cbn [app]. reflexivity.
Qed.

Lemma generate_gradual_motion_eq (cos : Q -> Q) (pi : Q)
    (start_pos end_pos start_time : Z) (speed_mult : Q) (g : rng) (base : Z) :
  calculate_duration (Z.abs (end_pos - start_pos)) (end_pos >? start_pos) speed_mult
  = Some base ->
  generate_gradual_motion cos pi start_pos end_pos start_time speed_mult g
  = Some (map (fun j =>
                 gradual_sample cos pi start_pos end_pos start_time
                   (gradual_num_points g) base (Z.of_nat j))
              (seq 0 (S (Z.to_nat (gradual_num_points g)))),
          start_time + base,
          advance 1 g).
Proof.
  intros Hd. unfold generate_gradual_motion. rewrite randint_eq.
  change (8 + tape g (cursor g) mod (10 - 8 + 1)) with (gradual_num_points g).
  cbv zeta. rewrite Hd.
  pose proof (gradual_num_points_range g) as Hn.
  replace (Z.to_nat (gradual_num_points g + 1))
    with (S (Z.to_nat (gradual_num_points g))) by lia.
  change (gradual_body cos pi start_pos end_pos start_time (gradual_num_points g) base)
    with (fun j l => l ++ [gradual_sample cos pi start_pos end_pos start_time
                             (gradual_num_points g) base j]).
  rewrite for_range_append. reflexivity.
Qed.

(** ** The plateaued generator and the full-range cycle in closed form *)

Lemma generate_plateau_motion_eq
    (start_pos end_pos start_time : Z) (speed_mult : Q) (g : rng) (base : Z) :
  calculate_duration (Z.abs (end_pos - start_pos)) (end_pos >? start_pos) speed_mult
  = Some base ->
  generate_plateau_motion start_pos end_pos start_time speed_mult g
  = Some (plateau_samples start_pos end_pos start_time (base / 6),
          start_time + base / 6 + base / 6 + base / 6 + base / 6 + base / 6 + base / 6,
          g).
Proof.
  intros Hd. unfold generate_plateau_motion. rewrite Hd. reflexivity.
Qed.

Lemma generate_full_stroke_eq
    (start_pos start_time : Z) (speed_mult : Q) (g : rng) :
  generate_full_stroke start_pos start_time speed_mult g
  = if start_pos <? 50 then
      (stroke_samples start_pos 100 0 start_time
         (leg_duration (stroke_total_duration g) true)
         (leg_duration (stroke_total_duration g) false),
       start_time + leg_duration (stroke_total_duration g) true
       + leg_duration (stroke_total_duration g) false,
       0, advance 1 g)
    else
      (stroke_samples start_pos 0 100 start_time
         (leg_duration (stroke_total_duration g) false)
         (leg_duration (stroke_total_duration g) true),
       start_time + leg_duration (stroke_total_duration g) false
       + leg_duration (stroke_total_duration g) true,
       100, advance 1 g).
Proof.
  unfold generate_full_stroke, stroke_samples.
  destruct (start_pos <? 50) eqn:E; rewrite randint_eq;
    change (10000 + tape g (cursor g) mod (12000 - 10000 + 1))
      with (stroke_total_duration g); cbv zeta iota beta.
  - apply Z.ltb_lt in E.
    replace (100 >? start_pos) with true by (symmetry; apply Z.gtb_lt; lia).
    change (0 >? 100) with false.
    change (stroke_body start_pos 100 start_time
              (leg_duration (stroke_total_duration g) true))
      with (fun j l => l ++ [stroke_sample start_pos 100 start_time
                               (leg_duration (stroke_total_duration g) true) j]).
    change (stroke_body 100 0
              (start_time + leg_duration (stroke_total_duration g) true)
              (leg_duration (stroke_total_duration g) false))
      with (fun j l => l ++ [stroke_sample 100 0
                               (start_time + leg_duration (stroke_total_duration g) true)
                               (leg_duration (stroke_total_duration g) false) j]).
    rewrite !for_range_append. reflexivity.
  - apply Z.ltb_ge in E.
    replace (0 >? start_pos) with false
      by (symmetry; apply not_true_is_false; intro C; apply Z.gtb_lt in C; lia).
    change (100 >? 0) with true.
    change (stroke_body start_pos 0 start_time
              (leg_duration (stroke_total_duration g) false))
      with (fun j l => l ++ [stroke_sample start_pos 0 start_time
                               (leg_duration (stroke_total_duration g) false) j]).
    change (stroke_body 0 100
              (start_time + leg_duration (stroke_total_duration g) false)
              (leg_duration (stroke_total_duration g) true))
      with (fun j l => l ++ [stroke_sample 0 100
                               (start_time + leg_duration (stroke_total_duration g) false)
                               (leg_duration (stroke_total_duration g) true) j]).
    rewrite !for_range_append. reflexivity.
Qed.

(** ** Legs of the full-range cycle *)

Lemma leg_duration_down (total : Z) : 0 <= total -> leg_duration total false = total / 2.
Proof.
  intros H. unfold leg_duration.
  rewrite (Py_int_comp _ (Py.float total / Py.float 2)).
  - rewrite Py_int_nonneg.
    + symmetry. apply Zdiv_Qdiv.
    + apply Qle_shift_div_l; [reflexivity|].
      rewrite Qmult_0_l. now apply (Py_float_le 0).
  - change (Py.float 2) with 2%Q. field.
Qed.

Lemma leg_duration_up (total : Z) : 0 <= total -> leg_duration total true = total / 3.
Proof.
  intros H. unfold leg_duration.
  rewrite (Py_int_comp _ (Py.float total / Py.float 3)).
  - rewrite Py_int_nonneg.
    + symmetry. apply Zdiv_Qdiv.
    + apply Qle_shift_div_l; [reflexivity|].
      rewrite Qmult_0_l. now apply (Py_float_le 0).
  - unfold UP_SPEED_MULTIPLIER. change (Py.float 3) with 3%Q. field.
Qed.

(** ** Every generator returns a well-formed run *)

(** Samples whose timestamps are [t + int(base * (j / n))], [j = 0..n]. *)
Lemma evenly_timed_run (f : nat -> Action) (t base n : Z) :
  0 < n -> 0 <= base ->
  (forall j, at_ (f j)
             = t + Py.int (Py.float base * (Py.float (Z.of_nat j) / Py.float n))) ->
  segment_ok t (map f (seq 0 (S (Z.to_nat n)))) (t + base).
Proof.
  intros Hn Hb Hat.
  assert (H0 : at_ (f O) = t).
  { rewrite Hat. change (Z.of_nat 0) with 0. rewrite offset_zero. lia. }
  change (map f (seq 0 (S (Z.to_nat n))))
    with (f O :: map f (seq 1 (Z.to_nat n))).
  apply segment_ok_intro; [assumption| |].
  - change (f O :: map f (seq 1 (Z.to_nat n)))
      with (map f (seq 0 (S (Z.to_nat n)))).
    apply ascending_from_map_seq; [lia|].
    intros j _ _. rewrite !Hat.
    apply Z.add_le_mono_l, offset_mono; lia.
  - change (f O :: map f (seq 1 (Z.to_nat n)))
      with (map f (seq 0 (S (Z.to_nat n)))).
    rewrite last_at_map_seq, Hat. cbn [Nat.add].
    rewrite Z2Nat.id by lia. now rewrite offset_full.
Qed.

Lemma generate_wave_motion_none (sin : Q -> Q) (pi : Q)
    (start_pos end_pos start_time : Z) (speed_mult : Q) (g : rng) :
  calculate_duration (Z.abs (end_pos - start_pos)) (end_pos >? start_pos) speed_mult
  = None ->
  generate_wave_motion sin pi start_pos end_pos start_time speed_mult g = None.
Proof.
  intros Hd. unfold generate_wave_motion. rewrite randint_eq. cbv zeta.
  now rewrite Hd.
Qed.

Lemma generate_gradual_motion_none (cos : Q -> Q) (pi : Q)
    (start_pos end_pos start_time : Z) (speed_mult : Q) (g : rng) :
  calculate_duration (Z.abs (end_pos - start_pos)) (end_pos >? start_pos) speed_mult
  = None ->
  generate_gradual_motion cos pi start_pos end_pos start_time speed_mult g = None.
Proof.
  intros Hd. unfold generate_gradual_motion. rewrite randint_eq. cbv zeta.
  now rewrite Hd.
Qed.

Lemma generate_plateau_motion_none
    (start_pos end_pos start_time : Z) (speed_mult : Q) (g : rng) :
  calculate_duration (Z.abs (end_pos - start_pos)) (end_pos >? start_pos) speed_mult
  = None ->
  generate_plateau_motion start_pos end_pos start_time speed_mult g = None.
Proof. intros Hd. unfold generate_plateau_motion. now rewrite Hd. Qed.

(** Whenever a generator returns for a positive multiplier, what it returns
    is a well-formed run. *)
Lemma wave_run (sin : Q -> Q) (pi : Q)
    (start_pos end_pos start_time : Z) (speed_mult : Q) (g : rng)
    (samples : list Action) (end_time : Z) (g' : rng) :
  (0 < speed_mult)%Q ->
  generate_wave_motion sin pi start_pos end_pos start_time speed_mult g
  = Some (samples, end_time, g') ->
  tape g' = tape g /\ segment_ok start_time samples end_time.
Proof.
  intros Hm E.
  destruct (calculate_duration (Z.abs (end_pos - start_pos))
              (end_pos >? start_pos) speed_mult) as [base|] eqn:Hd.
  - pose proof (calculate_duration_some_nonneg _ _ _ _ (Z.abs_nonneg _) Hm Hd) as Hb.
    rewrite (generate_wave_motion_eq _ _ _ _ _ _ _ _ Hd) in E.
    apply Some_eq in E. apply pair_eq in E. destruct E as [E <-].
    apply pair_eq in E. destruct E as [<- <-]. split; [reflexivity|].
    pose proof (wave_num_points_range g).
    apply evenly_timed_run; [lia | assumption | reflexivity].
  - rewrite (generate_wave_motion_none _ _ _ _ _ _ _ Hd) in E. discriminate.
Qed.

Lemma gradual_run (cos : Q -> Q) (pi : Q)
    (start_pos end_pos start_time : Z) (speed_mult : Q) (g : rng)
    (samples : list Action) (end_time : Z) (g' : rng) :
  (0 < speed_mult)%Q ->
  generate_gradual_motion cos pi start_pos end_pos start_time speed_mult g
  = Some (samples, end_time, g') ->
  tape g' = tape g /\ segment_ok start_time samples end_time.
Proof.
  intros Hm E.
  destruct (calculate_duration (Z.abs (end_pos - start_pos))
              (end_pos >? start_pos) speed_mult) as [base|] eqn:Hd.
  - pose proof (calculate_duration_some_nonneg _ _ _ _ (Z.abs_nonneg _) Hm Hd) as Hb.
    rewrite (generate_gradual_motion_eq _ _ _ _ _ _ _ _ Hd) in E.
    apply Some_eq in E. apply pair_eq in E. destruct E as [E <-].
    apply pair_eq in E. destruct E as [<- <-]. split; [reflexivity|].
    pose proof (gradual_num_points_range g).
    apply evenly_timed_run; [lia | assumption | reflexivity].
  - rewrite (generate_gradual_motion_none _ _ _ _ _ _ _ Hd) in E. discriminate.
Qed.

Lemma plateau_samples_run (start_pos end_pos start_time seg : Z) :
  0 <= seg ->
  segment_ok start_time (plateau_samples start_pos end_pos start_time seg)
    (start_time + seg + seg + seg + seg + seg + seg).
Proof.
  intros Hs. unfold plateau_samples.
  apply segment_ok_intro; [reflexivity| |reflexivity].
  simpl. repeat split; lia.
Qed.

Lemma plateau_run
    (start_pos end_pos start_time : Z) (speed_mult : Q) (g : rng)
    (samples : list Action) (end_time : Z) (g' : rng) :
  (0 < speed_mult)%Q ->
  generate_plateau_motion start_pos end_pos start_time speed_mult g
  = Some (samples, end_time, g') ->
  tape g' = tape g /\ segment_ok start_time samples end_time.
Proof.
  intros Hm E.
  destruct (calculate_duration (Z.abs (end_pos - start_pos))
              (end_pos >? start_pos) speed_mult) as [base|] eqn:Hd.
  - pose proof (calculate_duration_some_nonneg _ _ _ _ (Z.abs_nonneg _) Hm Hd) as Hb.
    rewrite (generate_plateau_motion_eq _ _ _ _ _ _ Hd) in E.
    apply Some_eq in E. apply pair_eq in E. destruct E as [E <-].
    apply pair_eq in E. destruct E as [<- <-]. split; [reflexivity|].
    apply plateau_samples_run. now apply Z.div_pos.
  - rewrite (generate_plateau_motion_none _ _ _ _ _ Hd) in E. discriminate.
Qed.


Lemma stroke_samples_run (p0 p1 p2 start_time first second : Z) :
  0 <= first -> 0 <= second ->
  segment_ok start_time (stroke_samples p0 p1 p2 start_time first second)
    (start_time + first + second).
Proof.
  intros H1 H2.
  pose proof (segment_ok_elim _ _ _
                (evenly_timed_run
                   (fun j => stroke_sample p0 p1 start_time first (Z.of_nat j))
                   start_time first 7 eq_refl H1 (fun _ => eq_refl)))
    as [_ [Hasc1 [Hlast1 _]]].
  pose proof (segment_ok_elim _ _ _
                (evenly_timed_run
                   (fun j => stroke_sample p1 p2 (start_time + first) second (Z.of_nat j))
                   (start_time + first) second 7 eq_refl H2 (fun _ => eq_refl)))
    as [_ [Hasc2 [Hlast2 _]]].
  change (Z.to_nat 7) with 7%nat in *.
  change (seq 0 8) with (0%nat :: seq 1 7) in Hasc2, Hlast2.
  rewrite <- seq_shift, map_cons, map_map in Hasc2, Hlast2.
  cbn [ascending_from last_at] in Hasc2, Hlast2.
  destruct Hasc2 as [Hhd2 Hasc2].
  assert (E0 : at_ (stroke_sample p1 p2 (start_time + first) second (Z.of_nat 0))
               = start_time + first).
  { unfold stroke_sample. cbn [at_]. change (Z.of_nat 0) with 0.
    rewrite offset_zero. lia. }
  rewrite E0 in Hasc2, Hlast2.
  assert (Eshift : map (fun j => stroke_sample p1 p2 (start_time + first) second
                                   (1 + Z.of_nat j)) (seq 0 7)
                   = map (fun x => stroke_sample p1 p2 (start_time + first) second
                                     (Z.of_nat (S x))) (seq 0 7)).
  { apply map_ext. intros j. f_equal. lia. }
  unfold stroke_samples. rewrite Eshift.
  change (map (fun j => stroke_sample p0 p1 start_time first (Z.of_nat j)) (seq 0 8))
    with (stroke_sample p0 p1 start_time first 0
          :: map (fun j => stroke_sample p0 p1 start_time first (Z.of_nat j)) (seq 1 7))
    in *.
  cbn [app]. apply segment_ok_intro.
  - unfold stroke_sample. cbn [at_]. rewrite offset_zero. lia.
  - rewrite app_comm_cons. apply ascending_from_app. split; [assumption|].
    now rewrite Hlast1.
  - rewrite app_comm_cons, last_at_app, Hlast1. exact Hlast2.
Qed.

Lemma leg_duration_nonneg (total : Z) (up : bool) :
  0 <= total -> 0 <= leg_duration total up.
Proof.
  intros H. destruct up; [rewrite leg_duration_up | rewrite leg_duration_down];
    try assumption; apply Z.div_pos; lia.
Qed.

Lemma full_stroke_run (start_pos start_time : Z) (speed_mult : Q) (g : rng) :
  exists samples end_time p g',
    generate_full_stroke start_pos start_time speed_mult g
    = (samples, end_time, p, g')
    /\ tape g' = tape g
    /\ (p = 0 \/ p = 100)
    /\ segment_ok start_time samples end_time.
Proof.
  rewrite generate_full_stroke_eq.
  pose proof (stroke_total_duration_range g) as HT.
  destruct (start_pos <? 50); do 4 eexists;
    (split; [reflexivity|]); (split; [reflexivity|]);
    (split; [auto|]);
    apply stroke_samples_run; apply leg_duration_nonneg; lia.
Qed.





(** ** C1: the elapsed time of a full-range cycle *)

Lemma full_stroke_elapsed_eq (start_pos start_time : Z) (speed_mult : Q) (g : rng) :
  snd (fst (fst (generate_full_stroke start_pos start_time speed_mult g))) - start_time
  = stroke_total_duration g / 2 + stroke_total_duration g / 3.
Proof.
  rewrite generate_full_stroke_eq.
  pose proof (stroke_total_duration_range g) as HT.
  destruct (start_pos <? 50); cbn [fst snd];
    rewrite leg_duration_up, leg_duration_down by lia; lia.
Qed.

(** C1 fails on the code: a full-range cycle whose drawn total is [T] takes
    [T // 2 + T // 3] ms, one leg at full length and the other divided by
    the up-speed multiplier.  That is between 8333 and 10000 ms, and below
    the band [10000, 12000] for every draw but [T = 12000]; at
    [start_pos = 50], [start_time = 0] and [T = 10000] it is 8333 ms. *)
Theorem generate_full_stroke_elapsed
    (start_pos start_time : Z) (speed_mult : Q) (g : rng) :
  let elapsed :=
    snd (fst (fst (generate_full_stroke start_pos start_time speed_mult g)))
    - start_time in
  let total := stroke_total_duration g in
  elapsed = total / 2 + total / 3
  /\ 8333 <= elapsed <= 10000
  /\ (total < 12000 -> elapsed < 10000)
  /\ snd (fst (fst (generate_full_stroke 50 0 1 (mk_rng (fun _ => 0) 0)))) - 0 = 8333.
Proof.
  cbv zeta. rewrite full_stroke_elapsed_eq.
  pose proof (stroke_total_duration_range g) as HT.
  set (T := stroke_total_duration g) in *.
  pose proof (Z.div_mod T 2 ltac:(lia)). pose proof (Z.mod_pos_bound T 2 ltac:(lia)).
  pose proof (Z.div_mod T 3 ltac:(lia)). pose proof (Z.mod_pos_bound T 3 ltac:(lia)).
  split; [lia|]. split; [lia|]. split; [lia|]. vm_compute. reflexivity.
Qed.

(** On binary64 the two legs have the same lengths as in the rational
    reading, for every total the draw can return. *)
Lemma leg_duration_binary64_check :
  forallb (fun total =>
             (Binary64.leg_duration total true =? leg_duration total true)
             && (Binary64.leg_duration total false =? leg_duration total false))
          total_duration_band = true.
Proof. vm_compute. reflexivity. Qed.

Lemma leg_duration_binary64 (total : Z) (up : bool) :
  10000 <= total <= 12000 ->
  Binary64.leg_duration total up = leg_duration total up.
Proof.
  intros H. pose proof leg_duration_binary64_check as Hc.
  rewrite forallb_forall in Hc.
  assert (Hin : In total total_duration_band).
  { unfold total_duration_band. apply in_map_iff.
    exists (Z.to_nat (total - 10000)). split; [lia|].
    apply in_seq. lia. }
  specialize (Hc total Hin). apply andb_true_iff in Hc.
  destruct Hc as [Hu Hd]. apply Z.eqb_eq in Hu, Hd. now destruct up.
Qed.

Lemma leg_duration_binary64_witness :
  Binary64.leg_duration 10000 true = leg_duration 10000 true.
Proof. apply (leg_duration_binary64 10000 true). lia. Defined.

(** ** C5: positions and the range [[0, 100]] *)

(** The oscillating generator clamps every position it emits, whatever its
    arguments and whatever the sine returns. *)
Lemma wave_positions_clamped (sin : Q -> Q) (pi : Q)
    (start_pos end_pos start_time : Z) (speed_mult : Q) (g : rng) :
  positions_in_range
    (samples_of (generate_wave_motion sin pi start_pos end_pos start_time speed_mult g)).
Proof.
  destruct (calculate_duration (Z.abs (end_pos - start_pos)) (end_pos >? start_pos)
              speed_mult) as [base|] eqn:Hd.
  - rewrite (generate_wave_motion_eq _ _ _ _ _ _ _ _ Hd). cbn [samples_of].
    apply Forall_forall. intros a Hin. apply in_map_iff in Hin.
    destruct Hin as [j [<- _]]. apply Py_clamp_range.
  - rewrite (generate_wave_motion_none _ _ _ _ _ _ _ Hd). constructor.
Qed.

(** So does the eased generator. *)
Lemma gradual_positions_clamped (cos : Q -> Q) (pi : Q)
    (start_pos end_pos start_time : Z) (speed_mult : Q) (g : rng) :
  positions_in_range
    (samples_of (generate_gradual_motion cos pi start_pos end_pos start_time speed_mult g)).
Proof.
  destruct (calculate_duration (Z.abs (end_pos - start_pos)) (end_pos >? start_pos)
              speed_mult) as [base|] eqn:Hd.
  - rewrite (generate_gradual_motion_eq _ _ _ _ _ _ _ _ Hd). cbn [samples_of].
    apply Forall_forall. intros a Hin. apply in_map_iff in Hin.
    destruct Hin as [j [<- _]]. apply Py_clamp_range.
  - rewrite (generate_gradual_motion_none _ _ _ _ _ _ _ Hd). constructor.
Qed.


(** The same positions on binary64. *)
Lemma plateau_and_full_stroke_do_not_clamp_binary64 :
  map (Binary64.plateau_target 150 200) [0; 1; 2] = [166; 183; 200]
  /\ map (Binary64.stroke_pos 150 0) [0; 1; 2; 3; 4; 5; 6; 7]
     = [150; 128; 107; 85; 64; 42; 21; 0]
  /\ map (Binary64.stroke_pos 0 100) [1; 2; 3; 4; 5; 6; 7]
     = [14; 28; 42; 57; 71; 85; 100].
Proof. repeat split; vm_compute; reflexivity. Qed.

(** With both positions in range the two generators stay in range without
    clamping: every position they emit lies between the positions they move
    between. *)
Lemma Py_float_sub (a b : Z) : (Py.float (a - b) == Py.float a - Py.float b)%Q.
Proof.
  unfold Py.float, Z.sub, Qminus. now rewrite inject_Z_plus, inject_Z_opp.
Qed.

Lemma Py_int_between (lo hi : Z) (q : Q) :
  (Py.float lo <= q <= Py.float hi)%Q -> lo <= Py.int q <= hi.
Proof.
  intros [H1 H2]. apply Py_int_mono in H1, H2.
  rewrite Py_int_float in H1, H2. lia.
Qed.

Lemma third_steps_between (a d k : Q) :
  (0 <= d)%Q -> (1 <= k <= 3)%Q ->
  (a <= a + d / 3 * k * 1 <= a + d)%Q /\ (a - d <= a + d / 3 * k * -1 <= a)%Q.
Proof.
  intros Hd Hk.
  assert (H1 : (0 <= d * (k - 1))%Q) by (apply Qmult_le_0_compat; lra).
  assert (H2 : (0 <= d * (3 - k))%Q) by (apply Qmult_le_0_compat; lra).
  set (P := (d * k)%Q).
  assert (E1 : (d * (k - 1) == P - d)%Q) by (unfold P; ring).
  assert (E2 : (d * (3 - k) == 3 * d - P)%Q) by (unfold P; ring).
  assert (E3 : (a + d / 3 * k * 1 == a + P * (1 # 3))%Q) by (unfold P; field).
  assert (E4 : (a + d / 3 * k * -1 == a - P * (1 # 3))%Q) by (unfold P; field).
  rewrite E1 in H1. rewrite E2 in H2. rewrite E3, E4.
  repeat split; lra.
Qed.

Lemma plateau_target_between (start_pos end_pos i : Z) :
  0 <= i <= 2 ->
  Z.min start_pos end_pos <= plateau_target start_pos end_pos i
  <= Z.max start_pos end_pos.
Proof.
  intros Hi. unfold plateau_target.
  assert (Hk : exists k : Q, Py.float (i + 1) = k /\ (1 <= k <= 3)%Q).
  { assert (Hc : i = 0 \/ i = 1 \/ i = 2) by lia.
    destruct Hc as [-> | [-> | ->]]; eexists; (split; [reflexivity|]);
      split; discriminate. }
  destruct Hk as [k [-> Hk]].
  change (Py.float 3) with 3%Q.
  destruct (end_pos >? start_pos) eqn:E.
  - apply Z.gtb_lt in E. rewrite Z.abs_eq, Z.min_l, Z.max_r by lia.
    apply Py_int_between. rewrite Py_float_sub.
    assert (Hq : (Py.float start_pos <= Py.float end_pos)%Q) by (apply Py_float_le; lia).
    change (Py.float 1) with 1%Q.
    set (a := Py.float start_pos) in *. set (b := Py.float end_pos) in *.
    destruct (third_steps_between a (b - a) k) as [[H1 H2] _]; [lra | assumption |].
    split; lra.
  - assert (E' : end_pos <= start_pos).
    { destruct (Z.gtb_spec end_pos start_pos); [discriminate | lia]. }
    rewrite Z.abs_neq, Z.min_r, Z.max_l by lia.
    apply Py_int_between.
    replace (- (end_pos - start_pos)) with (start_pos - end_pos) by lia.
    rewrite Py_float_sub.
    assert (Hq : (Py.float end_pos <= Py.float start_pos)%Q) by (apply Py_float_le; lia).
    change (Py.float (-1)) with (-1)%Q.
    set (a := Py.float start_pos) in *. set (b := Py.float end_pos) in *.
    destruct (third_steps_between a (a - b) k) as [_ [H1 H2]]; [lra | assumption |].
    split; lra.
Qed.

(** ** The finalizer: sort and deduplicate *)

Section SortByKey.

Context {A : Type} (key : A -> Z).

Lemma insert_by_Sorted (x : A) (l : list A) :
  Sorted (le_key key) l -> Sorted (le_key key) (insert_by key x l).
Proof.
  induction l as [|y r IH]; intros H; simpl.
  - repeat constructor.
  - destruct (key x <=? key y) eqn:E.
    + apply Z.leb_le in E. constructor; [assumption|]. now constructor.
    + apply Z.leb_gt in E. inversion H as [|? ? Hr Hy]; subst.
      constructor; [now apply IH|].
      destruct r as [|z r]; simpl.
      * constructor. unfold le_key. lia.
      * destruct (key x <=? key z); constructor.
        -- unfold le_key. lia.
        -- now inversion Hy.
Qed.

Lemma sorted_Sorted (l : list A) : Sorted (le_key key) (sorted key l).
Proof.
  induction l as [|x l IH]; simpl; [constructor | now apply insert_by_Sorted].
Qed.

(** Sorting a list that is already in order changes nothing. *)
Lemma sorted_of_Sorted (l : list A) : Sorted (le_key key) l -> sorted key l = l.
Proof.
  induction l as [|x l IH]; intros H; [reflexivity|].
  inversion H as [|? ? Hl Hx]; subst. simpl. rewrite (IH Hl).
  destruct l as [|y r]; [reflexivity|]. simpl.
  inversion Hx; subst. unfold le_key in *.
  now replace (key x <=? key y) with true by (symmetry; apply Z.leb_le; assumption).
Qed.

End SortByKey.

Lemma lt_at_le_at (l : list Action) : Sorted lt_at l -> Sorted le_at l.
Proof.
  induction 1 as [|a l Hs IH Hr]; constructor; [assumption|].
  destruct Hr; constructor. unfold lt_at, le_at in *. lia.
Qed.

Lemma le_at_Forall (a : Action) (l : list Action) :
  Sorted le_at (a :: l) -> Forall (le_at a) l.
Proof.
  intros H. apply Sorted_extends in H; [assumption|].
  intros x y z. unfold le_at. lia.
Qed.

(** The first sample [dedupe] keeps differs from [last_time] and comes from
    the list. *)
Lemma dedupe_head (p : Z) (l : list Action) (b : Action) (r : list Action) :
  dedupe p l = b :: r -> at_ b <> p /\ In b l.
Proof.
  induction l as [|a l IH]; simpl; [discriminate|].
  destruct (at_ a =? p) eqn:E.
  - intros H. destruct (IH H). auto.
  - intros H. injection H as <- _. apply Z.eqb_neq in E. auto.
Qed.

Lemma dedupe_strict (p : Z) (l : list Action) :
  Sorted le_at l -> Sorted lt_at (dedupe p l).
Proof.
  revert p. induction l as [|a l IH]; intros p H; simpl; [constructor|].
  assert (Hl : Sorted le_at l) by (now inversion H).
  destruct (at_ a =? p); [now apply IH|].
  constructor; [now apply IH|].
  destruct (dedupe (at_ a) l) as [|b r] eqn:E; constructor.
  destruct (dedupe_head _ _ _ _ E) as [Hne Hin].
  pose proof (le_at_Forall _ _ H) as Hall.
  rewrite Forall_forall in Hall. specialize (Hall b Hin).
  unfold lt_at, le_at in *. lia.
Qed.

(** Deduplicating a strictly increasing list that does not start at
    [last_time] changes nothing. *)
Lemma dedupe_of_strict (p : Z) (l : list Action) :
  Sorted lt_at l ->
  match l with [] => True | a :: _ => at_ a <> p end ->
  dedupe p l = l.
Proof.
  revert p. induction l as [|a l IH]; intros p H Hp; simpl; [reflexivity|].
  replace (at_ a =? p) with false by (symmetry; now apply Z.eqb_neq).
  f_equal. inversion H as [|? ? Hl Hr]; subst. apply IH; [assumption|].
  destruct l as [|b r]; [trivial|]. inversion Hr; subst. unfold lt_at in *. lia.
Qed.

Lemma finalize_strict (l : list Action) : Sorted lt_at (finalize l).
Proof. apply dedupe_strict. apply (sorted_Sorted at_). Qed.

Lemma finalize_head (l : list Action) :
  match finalize l with [] => True | a :: _ => at_ a <> -1 end.
Proof.
  unfold finalize. destruct (dedupe (-1) (sorted at_ l)) as [|b r] eqn:E; [trivial|].
  now destruct (dedupe_head _ _ _ _ E).
Qed.

(** C7: sorting and deduplicating a sequence the finalizer has produced
    yields that same sequence. *)
Theorem finalize_idempotent (l : list Action) :
  finalize (finalize l) = finalize l.
Proof.
  pose proof (finalize_strict l) as Hs. pose proof (finalize_head l) as Hh.
  unfold finalize at 1.
  rewrite (sorted_of_Sorted at_ (finalize l) (lt_at_le_at _ Hs)).
  now apply dedupe_of_strict.
Qed.

(** ** The scheduler keeps the timeline in order *)

Lemma initial_state_inv (g : rng) : timeline_inv (initial_state g).
Proof.
  unfold initial_state.
  destruct (Py.for_range 5 0 draw_stroke_time ([], g)) as [times g'].
  split; [now exists []|]. cbn. repeat split; lia.
Qed.

Lemma update_speed_inv (st : GenerationState) :
  timeline_inv st -> timeline_inv (update_speed st).
Proof.
  intros [Hhd [Hasc [Hlast Hm]]]. unfold update_speed.
  destruct (current_time st >=? next_speed_change st); [|repeat split; assumption].
  destruct (in_speed_variation st).
  - repeat split; cbn; assumption.
  - pose proof (uniform_range (10 # 100) (30 # 100) (rand st)) as Hu.
    destruct (Random.uniform (10 # 100) (30 # 100) (rand st)) as [u g'].
    cbn [fst] in Hu. repeat split; cbn; try assumption.
    assert (Hab : ((10 # 100) <= (30 # 100))%Q) by discriminate.
    specialize (Hu Hab). lra.
Qed.

(** Appending a well-formed run that starts at the last timestamp. *)
Lemma append_run (l : list Action) (now : Z) (samples : list Action) (t : Z) :
  (exists r, l = mkAction 0 50 :: r) -> ascending_from 0 l -> last_at 0 l = now ->
  segment_ok now samples t ->
  (exists r, l ++ samples = mkAction 0 50 :: r)
  /\ ascending_from 0 (l ++ samples)
  /\ last_at 0 (l ++ samples) = t.
Proof.
  intros [r Hr] Hasc Hlast Hseg.
  destruct (segment_ok_elim _ _ _ Hseg) as [_ [Ha [Hl _]]].
  split; [|split].
  - exists (r ++ samples). now rewrite Hr.
  - apply ascending_from_app. rewrite Hlast. now split.
  - now rewrite last_at_app, Hlast.
Qed.

Lemma maybe_pause_inv (st : GenerationState) (g : rng) :
  timeline_inv st ->
  exists acts now g',
    maybe_pause st g = (acts, now, g')
    /\ (exists r, acts = mkAction 0 50 :: r)
    /\ ascending_from 0 acts
    /\ last_at 0 acts = now.
Proof.
  intros [Hhd [Hasc [Hlast Hm]]]. unfold maybe_pause.
  destruct (Random.random g) as [u g1].
  destruct (Py.lt u (15 # 100) && negb (in_speed_variation st)).
  - destruct (add_pause (current_time st) g1) as [pause_time g2].
    destruct (pause_time >? current_time st) eqn:E.
    + do 3 eexists. split; [reflexivity|]. apply Z.gtb_lt in E.
      destruct Hhd as [r Hr]. split; [|split].
      * exists (r ++ [mkAction pause_time (current_pos st)]). now rewrite Hr.
      * apply ascending_from_app. split; [assumption|]. rewrite Hlast. cbn. lia.
      * apply last_at_snoc.
    + do 3 eexists. split; [reflexivity|]. auto.
  - do 3 eexists. split; [reflexivity|]. auto.
Qed.

Section SchedulerInvariant.

Variables (sin cos : Q -> Q) (pi : Q).

Lemma generate_motion_run (motion_type : motion)
    (start_pos end_pos start_time : Z) (speed_mult : Q) (g : rng)
    (samples : list Action) (end_time : Z) (g' : rng) :
  (0 < speed_mult)%Q ->
  generate_motion sin cos pi motion_type start_pos end_pos start_time speed_mult g
  = Some (samples, end_time, g') ->
  tape g' = tape g /\ segment_ok start_time samples end_time.
Proof.
  intros Hm. destruct motion_type; cbn [generate_motion].
  - now apply wave_run.
  - now apply gradual_run.
  - now apply plateau_run.
Qed.

(** One pass through the loop body, unless it raises, keeps the invariant. *)
Lemma iteration_inv (st st' : GenerationState) :
  timeline_inv st ->
  iteration sin cos pi st = Continue st' \/ iteration sin cos pi st = Break st' ->
  timeline_inv st'.
Proof.
  intros H0. apply update_speed_inv in H0. unfold iteration.
  set (st1 := update_speed st) in *.
  destruct ((full_stroke_index st1 <? length (full_stroke_times st1))%nat
            && (current_time st1 >=? nth (full_stroke_index st1) (full_stroke_times st1) 0)).
  - destruct (full_stroke_run (current_pos st1) (current_time st1)
                (speed_multiplier st1) (rand st1))
      as [samples [t [p [g' [E [_ [_ Hseg]]]]]]].
    rewrite E.
    destruct H0 as [Hhd [Hasc [Hlast Hm]]].
    destruct (append_run _ _ _ _ Hhd Hasc Hlast Hseg) as [Hhd' [Hasc' Hlast']].
    intros [H | H]; [|discriminate H]. injection H as <-.
    repeat split; cbn; assumption.
  - destruct (maybe_pause_inv st1 (rand st1) H0)
      as [acts [now [g1 [E1 [Hhd [Hasc Hlast]]]]]].
    rewrite E1.
    destruct (Random.choice wave [wave; gradual; plateau; gradual; wave] g1)
      as [motion_type g2].
    destruct (choose_target (current_pos st1) g2) as [target_pos g3].
    destruct H0 as [_ [_ [_ Hm]]].
    destruct (generate_motion sin cos pi motion_type (current_pos st1) target_pos now
                (speed_multiplier st1) g3) as [[[samples t] g4]|] eqn:E4;
      [|intros [H | H]; discriminate H].
    destruct (generate_motion_run _ _ _ _ _ _ _ _ _ Hm E4) as [_ Hseg].
    destruct (append_run _ _ _ _ Hhd Hasc Hlast Hseg) as [Hhd' [Hasc' Hlast']].
    destruct (t >? DURATION_MS + 60000); intros [H | H]; try discriminate H;
      injection H as <-; repeat split; cbn; assumption.
Qed.

Lemma while_loop_inv (fuel : nat) (st st' : GenerationState) :
  timeline_inv st ->
  while_loop sin cos pi fuel st = Finished st' ->
  timeline_inv st'.
Proof.
  revert st. induction fuel as [|fuel IH]; intros st Hinv; simpl; [discriminate|].
  destruct (current_time st <? DURATION_MS).
  - destruct (iteration sin cos pi st) as [st1|st1|] eqn:E; [| |discriminate].
    + apply IH. apply (iteration_inv st st1 Hinv). now left.
    + intros H. injection H as <-. apply (iteration_inv st st1 Hinv). now right.
  - intros H. now injection H as <-.
Qed.

Lemma close_timeline_inv (l l' : list Action) :
  (exists r, l = mkAction 0 50 :: r) -> ascending_from 0 l ->
  close_timeline l = Finished l' ->
  (exists r, l' = mkAction 0 50 :: r) /\ ascending_from 0 l'.
Proof.
  intros [r Hr] Hasc. unfold close_timeline.
  destruct (rev l) as [|final l0] eqn:E; [discriminate|].
  assert (El : l = rev l0 ++ [final]).
  { rewrite <- (rev_involutive l), E. reflexivity. }
  destruct (at_ final <? DURATION_MS) eqn:Et; intros H; injection H as <-.
  - apply Z.ltb_lt in Et. split.
    + exists (r ++ [mkAction DURATION_MS 50]). now rewrite Hr.
    + apply ascending_from_app. split; [assumption|].
      rewrite El, last_at_snoc. cbn [ascending_from at_]. split; [lia | trivial].
  - split; [now exists r | assumption].
Qed.

Lemma scheduled_actions_inv (fuel : nat) (g : rng) (l : list Action) :
  scheduled_actions sin cos pi fuel g = Finished l ->
  (exists r, l = mkAction 0 50 :: r) /\ ascending_from 0 l.
Proof.
  unfold scheduled_actions.
  destruct (while_loop sin cos pi fuel (initial_state g)) as [st| |] eqn:E;
    try discriminate.
  destruct (while_loop_inv _ _ _ (initial_state_inv g) E) as [Hhd [Hasc _]].
  now apply close_timeline_inv.
Qed.

End SchedulerInvariant.

(** ** A complete run

    On [hash_tape] the scheduler leaves its loop within 3000 passes. *)

Lemma demo_run_finishes :
  is_finished (scheduled_actions libm_sin libm_cos libm_pi 3000 (mk_rng hash_tape 0))
  = true.
Proof. vm_compute. reflexivity. Qed.

Lemma demo_run :
  exists l,
    scheduled_actions libm_sin libm_cos libm_pi 3000 (mk_rng hash_tape 0) = Finished l.
Proof.
  pose proof demo_run_finishes as H.
  destruct (scheduled_actions libm_sin libm_cos libm_pi 3000 (mk_rng hash_tape 0))
    as [l| |]; [now exists l | discriminate | discriminate].
Qed.

Lemma demo_script :
  exists l,
    generate_edging_script libm_sin libm_cos libm_pi 3000 (mk_rng hash_tape 0)
    = Finished l.
Proof.
  destruct demo_run as [l E]. exists (finalize l).
  unfold generate_edging_script. now rewrite E.
Qed.

(** ** C9 and C3: the order of the timeline *)

(** C9: when the finalizer is reached, the accumulated list is already
    non-decreasing by [at], so its stable sort returns the list unchanged. *)
Theorem scheduled_actions_already_sorted (sin cos : Q -> Q) (pi : Q)
    (fuel : nat) (g : rng) (l : list Action) :
  scheduled_actions sin cos pi fuel g = Finished l ->
  Sorted le_at l /\ sorted at_ l = l.
Proof.
  intros H. destruct (scheduled_actions_inv sin cos pi fuel g l H) as [_ Hasc].
  apply ascending_from_Sorted in Hasc. split; [assumption|].
  now apply (sorted_of_Sorted at_).
Qed.

Lemma scheduled_actions_already_sorted_witness :
  exists l,
    scheduled_actions libm_sin libm_cos libm_pi 3000 (mk_rng hash_tape 0) = Finished l
    /\ Sorted le_at l /\ sorted at_ l = l.
Proof.
  destruct demo_run as [l E]. exists l. split; [exact E|].
  exact (scheduled_actions_already_sorted libm_sin libm_cos libm_pi 3000
           (mk_rng hash_tape 0) l E).
Defined.

Lemma lt_at_StronglySorted (l : list Action) :
  Sorted lt_at l -> StronglySorted lt_at l.
Proof.
  apply Sorted_StronglySorted. intros x y z. unfold lt_at. lia.
Qed.

(** C3: in every sequence the generation routine returns, the [at] values
    are strictly increasing and the first action has [at = 0]. *)
Theorem generate_edging_script_strictly_increasing (sin cos : Q -> Q) (pi : Q)
    (fuel : nat) (g : rng) (l : list Action) :
  generate_edging_script sin cos pi fuel g = Finished l ->
  StronglySorted lt_at l
  /\ exists first rest, l = first :: rest /\ at_ first = 0.
Proof.
  unfold generate_edging_script.
  destruct (scheduled_actions sin cos pi fuel g) as [l0| |] eqn:E; try discriminate.
  intros H. injection H as <-. split.
  - apply lt_at_StronglySorted, finalize_strict.
  - destruct (scheduled_actions_inv sin cos pi fuel g l0 E) as [[r Hr] Hasc].
    apply ascending_from_Sorted in Hasc.
    unfold finalize. rewrite (sorted_of_Sorted at_ l0 Hasc), Hr.
    cbn [dedupe at_]. change (0 =? -1) with false.
    now exists (mkAction 0 50), (dedupe 0 r).
Qed.

Lemma generate_edging_script_strictly_increasing_witness :
  exists l,
    generate_edging_script libm_sin libm_cos libm_pi 3000 (mk_rng hash_tape 0)
    = Finished l
    /\ StronglySorted lt_at l
    /\ exists first rest, l = first :: rest /\ at_ first = 0.
Proof.
  destruct demo_script as [l E]. exists l. split; [exact E|].
  exact (generate_edging_script_strictly_increasing libm_sin libm_cos libm_pi 3000
           (mk_rng hash_tape 0) l E).
Defined.

(** ** C4: the loop and its safety valve *)

Section Stall.

Variables (sin cos : Q -> Q) (pi : Q).

Lemma stall_initial_state :
  initial_state (mk_rng stall_tape 0) = stall_state [mkAction 0 50] 5.
Proof. vm_compute. reflexivity. Qed.

(** On [stall_tape] a pass draws no pause, the plateaued shape and the
    target 50: the move from 50 to 50 takes 0 ms, so the pass leaves the
    time at 0. *)
Lemma stall_iteration (acts : list Action) (c : nat) :
  iteration sin cos pi (stall_state acts c)
  = Continue (stall_state (acts ++ stall_samples) (4 + c)).
Proof. vm_compute. reflexivity. Qed.

Lemma stall_while_loop (fuel : nat) (acts : list Action) (c : nat) :
  while_loop sin cos pi fuel (stall_state acts c) = OutOfFuel.
Proof.
  revert acts c. induction fuel as [|fuel IH]; intros acts c; [reflexivity|].
  cbn [while_loop]. rewrite stall_iteration.
  change (current_time (stall_state acts c) <? DURATION_MS) with true.
  cbv iota. apply IH.
Qed.

End Stall.

(** On binary64 too the draws of [stall_tape] give no pause and no extreme
    target, and the move from 50 to 50 takes 0 ms and stays at 50. *)
Lemma stall_draws_binary64 :
  Binary64.pause_roll stall_raw = false
  /\ Binary64.calculate_duration 0 false 1 = Some 0
  /\ map (Binary64.plateau_target 50 50) [0; 1; 2] = [50; 50; 50].
Proof. repeat split; vm_compute; reflexivity. Qed.

(** C4 fails on the code: on the tape on which every pass draws no pause
    and the target position 50, every pass is a move of distance 0 and
    duration 0; [current_time] stays 0, the overshoot check
    [current_time > DURATION_MS + 60000] is never true, and the loop is
    still running after any number of passes. *)
Theorem scheduler_loop_can_run_forever (sin cos : Q -> Q) (pi : Q) (fuel : nat) :
  while_loop sin cos pi fuel (initial_state (mk_rng stall_tape 0)) = OutOfFuel
  /\ generate_edging_script sin cos pi fuel (mk_rng stall_tape 0) = OutOfFuel.
Proof.
  assert (H : while_loop sin cos pi fuel (initial_state (mk_rng stall_tape 0))
              = OutOfFuel).
  { rewrite stall_initial_state. apply stall_while_loop. }
  split; [exact H|].
  unfold generate_edging_script, scheduled_actions. now rewrite H.
Qed.

(** ** C8 and C10: the amplitude of the oscillating generator *)






(** C10: from start and end positions strictly inside (0, 100) the
    oscillating generator can emit the extreme position 100: on the move
    from 95 to 90 with amplitude 10 the second sample overshoots to at
    least 101 and is clamped to 100.  The sine enters through one value,
    [sin(2 pi / 7) >= 0.7]. *)
Theorem wave_emits_clamped_extreme (sin : Q -> Q) (pi : Q) :
  ((7 # 10) <= sin ((1 # 7) * pi * 2))%Q ->
  exists start_pos end_pos g samples end_time g' a overshoot,
    0 < start_pos < 100 /\ 0 < end_pos < 100
    /\ generate_wave_motion sin pi start_pos end_pos 0 1 g
       = Some (samples, end_time, g')
    /\ In a samples
    /\ 100 < overshoot
    /\ pos a = Py.clamp overshoot
    /\ pos a = 100.
Proof.
  intros Hsin.
  set (g := mk_rng (fun _ => 5) 0).
  assert (Hd : calculate_duration (Z.abs (90 - 95)) (90 >? 95) 1 = Some 750)
    by (vm_compute; reflexivity).
  pose proof (generate_wave_motion_eq sin pi 95 90 0 1 g 750 Hd) as E.
  change (wave_num_points g) with 7 in E. change (Z.to_nat 7) with 7%nat in E.
  set (v := Py.int (Py.float 95 + Py.float (90 - 95) * (1 # 7)
                    + Py.float 10 * sin ((1 # 7) * pi * 2))%Q).
  assert (Hv : 101 <= v).
  { unfold v. rewrite <- (Py_int_float 101). apply Py_int_mono.
    change (Py.float 101) with 101%Q. change (Py.float 95) with 95%Q.
    change (Py.float (90 - 95)) with (-5)%Q. change (Py.float 10) with 10%Q.
    set (x := sin ((1 # 7) * pi * 2)%Q) in *. lra. }
  exists 95, 90, g. do 3 eexists.
  exists (mkAction (0 + Py.int (Py.float 750 * (1 # 7))%Q) (Py.clamp v)), v.
  split; [lia|]. split; [lia|]. split; [exact E|]. split.
  - apply in_map_iff. exists 1%nat. split; [reflexivity|]. apply in_seq. lia.
  - split; [lia|]. split; [reflexivity|]. cbn [pos]. unfold Py.clamp. lia.
Qed.

Lemma wave_emits_clamped_extreme_witness :
  exists start_pos end_pos g samples end_time g' a overshoot,
    0 < start_pos < 100 /\ 0 < end_pos < 100
    /\ generate_wave_motion libm_sin libm_pi start_pos end_pos 0 1 g
       = Some (samples, end_time, g')
    /\ In a samples
    /\ 100 < overshoot
    /\ pos a = Py.clamp overshoot
    /\ pos a = 100.
Proof.
  apply (wave_emits_clamped_extreme libm_sin libm_pi).
  vm_compute. discriminate.
Defined.

(** ** Positions stay in range without the clamp *)

Lemma lerp_between (a b p : Q) :
  (0 <= p <= 1)%Q ->
  ((a <= b -> a <= a + (b - a) * p <= b)
   /\ (b <= a -> b <= a + (b - a) * p <= a))%Q.
Proof.
  intros Hp. set (P := ((b - a) * p)%Q).
  split; intros Hab.
  - assert (H1 : (0 <= (b - a) * p)%Q) by (apply Qmult_le_0_compat; lra).
    assert (H2 : (0 <= (b - a) * (1 - p))%Q) by (apply Qmult_le_0_compat; lra).
    assert (E2 : ((b - a) * (1 - p) == b - a - P)%Q) by (unfold P; ring).
    rewrite E2 in H2. fold P in H1. split; lra.
  - assert (H1 : (0 <= (a - b) * p)%Q) by (apply Qmult_le_0_compat; lra).
    assert (H2 : (0 <= (a - b) * (1 - p))%Q) by (apply Qmult_le_0_compat; lra).
    assert (E1 : ((a - b) * p == - P)%Q) by (unfold P; ring).
    assert (E2 : ((a - b) * (1 - p) == a - b + P)%Q) by (unfold P; ring).
    rewrite E1 in H1. rewrite E2 in H2. split; lra.
Qed.

Lemma progress_le_one (i n : Z) :
  0 < n -> i <= n -> (Py.float i / Py.float n <= 1)%Q.
Proof.
  intros Hn Hi. rewrite <- (progress_full n Hn). now apply progress_mono.
Qed.

Lemma stroke_sample_between (from to time0 leg i : Z) :
  0 <= i <= 7 ->
  Z.min from to <= pos (stroke_sample from to time0 leg i) <= Z.max from to.
Proof.
  intros Hi. unfold stroke_sample. cbn [pos].
  assert (Hp : (0 <= Py.float i / Py.float 7 <= 1)%Q).
  { split; [apply progress_nonneg | apply progress_le_one]; lia. }
  destruct (lerp_between (Py.float from) (Py.float to) _ Hp) as [Hup Hdown].
  destruct (Z.le_ge_cases from to) as [H | H].
  - rewrite Z.min_l, Z.max_r by lia. apply Py_int_between.
    rewrite Py_float_sub. apply Hup. now apply Py_float_le.
  - rewrite Z.min_r, Z.max_l by lia. apply Py_int_between.
    rewrite Py_float_sub. apply Hdown. now apply Py_float_le.
Qed.

Lemma stroke_samples_in_range (p0 p1 p2 start_time first second : Z) :
  0 <= p0 <= 100 -> 0 <= p1 <= 100 -> 0 <= p2 <= 100 ->
  positions_in_range (stroke_samples p0 p1 p2 start_time first second).
Proof.
  intros H0 H1 H2. unfold stroke_samples, positions_in_range.
  apply Forall_app. split; apply Forall_forall; intros a Hin;
    apply in_map_iff in Hin; destruct Hin as [j [<- Hj]]; apply in_seq in Hj.
  - pose proof (stroke_sample_between p0 p1 start_time first (Z.of_nat j)). lia.
  - pose proof (stroke_sample_between p1 p2 (start_time + first) second
                  (1 + Z.of_nat j)). lia.
Qed.

Lemma plateau_samples_in_range (start_pos end_pos start_time seg : Z) :
  0 <= start_pos <= 100 -> 0 <= end_pos <= 100 ->
  positions_in_range (plateau_samples start_pos end_pos start_time seg).
Proof.
  intros Hs He. unfold plateau_samples, positions_in_range.
  pose proof (plateau_target_between start_pos end_pos 0).
  pose proof (plateau_target_between start_pos end_pos 1).
  pose proof (plateau_target_between start_pos end_pos 2).
  repeat constructor; cbn [pos]; lia.
Qed.



(** ** How long a pass of the loop can take *)

Lemma calculate_duration_bound (d : Z) (up : bool) (m : Q) :
  0 <= d <= 100 -> (1 <= m)%Q ->
  exists t, calculate_duration d up m = Some t /\ 0 <= t <= d * base_ms_per_unit.
Proof.
  intros Hd100 Hm. assert (Hm0 : (0 < m)%Q) by lra.
  assert (Hd : 0 <= d) by lia.
  rewrite (calculate_duration_pos d up m (duration_raises_small d m Hd100 Hm)).
  eexists. split; [reflexivity|].
  pose proof (raw_duration_nonneg d m Hd Hm0) as Hx.
  set (D := Py.float (d * base_ms_per_unit)) in *.
  assert (HD : (0 <= D)%Q) by (apply (Py_float_le 0); unfold base_ms_per_unit; lia).
  assert (Hle : (D / m <= D)%Q).
  { apply Qle_shift_div_r; [assumption|].
    assert (H1 : (0 <= D * (m - 1))%Q) by (apply Qmult_le_0_compat; lra).
    set (P := (D * m)%Q) in *.
    assert (E : (D * (m - 1) == P - D)%Q) by (unfold P; ring).
    rewrite E in H1. lra. }
  destruct (up_scaling_le _ Hx) as [Hu0 Hu].
  assert (HiD : Py.int D = d * base_ms_per_unit) by apply Py_int_float.
  rewrite <- HiD.
  destruct up; split; try (apply Py_int_nonneg_le; assumption);
    apply Py_int_mono; lra.
Qed.

Lemma generate_motion_bounds (sin cos : Q -> Q) (pi : Q) (motion_type : motion)
    (start_pos end_pos start_time : Z) (speed_mult : Q) (g : rng) :
  (1 <= speed_mult)%Q -> 0 <= start_pos <= 100 -> 0 <= end_pos <= 100 ->
  exists samples end_time g',
    generate_motion sin cos pi motion_type start_pos end_pos start_time speed_mult g
    = Some (samples, end_time, g')
    /\ end_time <= start_time + 100 * base_ms_per_unit
    /\ positions_in_range samples.
Proof.
  intros Hm Hs He.
  destruct (calculate_duration_bound (Z.abs (end_pos - start_pos))
              (end_pos >? start_pos) speed_mult ltac:(lia) Hm)
    as [base [Hd Hb]].
  assert (Hbase : base <= 100 * base_ms_per_unit) by (unfold base_ms_per_unit in *; lia).
  destruct motion_type; cbn [generate_motion].
  - pose proof (wave_positions_clamped sin pi start_pos end_pos start_time speed_mult g)
      as Hc.
    rewrite (generate_wave_motion_eq _ _ _ _ _ _ _ _ Hd) in *.
    do 3 eexists. split; [reflexivity|]. split; [lia | exact Hc].
  - pose proof (gradual_positions_clamped cos pi start_pos end_pos start_time speed_mult g)
      as Hc.
    rewrite (generate_gradual_motion_eq _ _ _ _ _ _ _ _ Hd) in *.
    do 3 eexists. split; [reflexivity|]. split; [lia | exact Hc].
  - rewrite (generate_plateau_motion_eq _ _ _ _ _ _ Hd).
    do 3 eexists. split; [reflexivity|]. split.
    + pose proof (Z.mul_div_le base 6 eq_refl). lia.
    + now apply plateau_samples_in_range.
Qed.

Lemma choose_target_range (current_pos : Z) (g : rng) :
  15 <= fst (choose_target current_pos g) <= 90.
Proof.
  unfold choose_target. rewrite random_eq. cbv zeta iota beta.
  destruct (Py.lt _ _).
  - unfold Random.choice, Random.randbelow, Random.next. cbn [fst length].
    pose proof (Z.mod_pos_bound (tape (advance 1 g) (cursor (advance 1 g))) 4 eq_refl)
      as Hr.
    change (Z.of_nat 4) with 4.
    set (r := tape (advance 1 g) (cursor (advance 1 g)) mod 4) in *.
    assert (Hc : r = 0 \/ r = 1 \/ r = 2 \/ r = 3) by lia.
    destruct Hc as [-> | [-> | [-> | ->]]]; vm_compute; split; discriminate.
  - destruct (current_pos <? 35); [|destruct (current_pos >? 75)].
    + pose proof (randint_range 45 85 (advance 1 g)). lia.
    + pose proof (randint_range 25 65 (advance 1 g)). lia.
    + pose proof (randint_range 25 85 (advance 1 g)). lia.
Qed.

Lemma add_pause_range (start_time : Z) (g : rng) :
  start_time <= fst (add_pause start_time g) <= start_time + 3000.
Proof.
  unfold add_pause. pose proof (randint_range 0 3000 g).
  destruct (Random.randint 0 3000 g) as [d g']. cbn [fst] in *. lia.
Qed.

Lemma update_speed_bounds (st : GenerationState) :
  bounds_inv st ->
  bounds_inv (update_speed st)
  /\ current_time (update_speed st) = current_time st.
Proof.
  intros [Hp [Hr Hm]]. unfold update_speed.
  destruct (current_time st >=? next_speed_change st);
    [|split; [exact (conj Hp (conj Hr Hm)) | reflexivity]].
  destruct (in_speed_variation st).
  - split; [|reflexivity]. split; [exact Hp|]. split; [exact Hr|]. discriminate.
  - pose proof (uniform_range (10 # 100) (30 # 100) (rand st)) as Hu.
    destruct (Random.uniform (10 # 100) (30 # 100) (rand st)) as [u g'].
    cbn [fst] in Hu. split; [|reflexivity].
    split; [exact Hp|]. split; [exact Hr|]. cbn.
    assert (Hab : ((10 # 100) <= (30 # 100))%Q) by discriminate.
    specialize (Hu Hab). lra.
Qed.

Lemma maybe_pause_bounds (st : GenerationState) (g : rng) :
  bounds_inv st ->
  exists acts now g',
    maybe_pause st g = (acts, now, g')
    /\ positions_in_range acts
    /\ now <= current_time st + 3000.
Proof.
  intros [Hp [Hr Hm]]. unfold maybe_pause.
  destruct (Random.random g) as [u g1].
  destruct (Py.lt u (15 # 100) && negb (in_speed_variation st)).
  - pose proof (add_pause_range (current_time st) g1) as Hpause.
    destruct (add_pause (current_time st) g1) as [pause_time g2].
    cbn [fst] in Hpause.
    destruct (pause_time >? current_time st); do 3 eexists;
      (split; [reflexivity|]); (split; [|lia]).
    + apply Forall_app. split; [assumption|]. now repeat constructor.
    + assumption.
  - do 3 eexists. split; [reflexivity|]. split; [assumption | lia].
Qed.

Section SchedulerBounds.

Variables (sin cos : Q -> Q) (pi : Q).

(** A pass started before [DURATION_MS] continues the loop: it ends at most
    [MAX_STEP_MS] later, so the overshoot check does not fire. *)
Lemma iteration_bounds (st : GenerationState) :
  bounds_inv st -> current_time st < DURATION_MS ->
  exists st',
    iteration sin cos pi st = Continue st'
    /\ bounds_inv st'
    /\ current_time st' <= current_time st + MAX_STEP_MS.
Proof.
  intros H0 Hnow. destruct (update_speed_bounds st H0) as [H1 Et].
  unfold iteration. set (st1 := update_speed st) in *. rewrite <- Et in *.
  destruct H1 as [Hp [Hr Hm]].
  destruct ((full_stroke_index st1 <? length (full_stroke_times st1))%nat
            && (current_time st1 >=? nth (full_stroke_index st1) (full_stroke_times st1) 0)).
  - rewrite generate_full_stroke_eq.
    pose proof (stroke_total_duration_range (rand st1)) as HT.
    assert (Hup : leg_duration (stroke_total_duration (rand st1)) true <= 4000).
    { rewrite leg_duration_up by lia. apply Z.div_le_upper_bound; lia. }
    assert (Hdown : leg_duration (stroke_total_duration (rand st1)) false <= 6000).
    { rewrite leg_duration_down by lia. apply Z.div_le_upper_bound; lia. }
    destruct (current_pos st1 <? 50); eexists; (split; [reflexivity|]);
      (split; [|cbn [current_time]; unfold MAX_STEP_MS, base_ms_per_unit; lia]);
      (split; [cbn [current_pos]; lia|]);
      (split; [|exact Hm]); cbn [actions];
      (apply Forall_app; split; [assumption|]);
      apply stroke_samples_in_range; lia.
  - destruct (maybe_pause_bounds st1 (rand st1) (conj Hp (conj Hr Hm)))
      as [acts [now [g1 [E1 [Hacts Hpause]]]]].
    rewrite E1.
    destruct (Random.choice wave [wave; gradual; plateau; gradual; wave] g1)
      as [motion_type g2].
    pose proof (choose_target_range (current_pos st1) g2) as Htarget.
    destruct (choose_target (current_pos st1) g2) as [target_pos g3].
    cbn [fst] in Htarget.
    destruct (generate_motion_bounds sin cos pi motion_type (current_pos st1)
                target_pos now (speed_multiplier st1) g3 Hm Hp)
      as [samples [t [g4 [E4 [Ht Hsamples]]]]]; [lia|].
    rewrite E4.
    assert (Hstep : t <= current_time st1 + MAX_STEP_MS)
      by (unfold MAX_STEP_MS; lia).
    replace (t >? DURATION_MS + 60000) with false.
    + eexists. split; [reflexivity|]. split; [|exact Hstep].
      split; [cbn [current_pos]; lia|]. split; [|exact Hm]. cbn [actions].
      apply Forall_app. now split.
    + symmetry. apply not_true_is_false. intro C. apply Z.gtb_lt in C.
      unfold MAX_STEP_MS, base_ms_per_unit in Hstep. lia.
Qed.

Lemma initial_state_bounds (g : rng) : bounds_inv (initial_state g).
Proof.
  unfold initial_state.
  destruct (Py.for_range 5 0 draw_stroke_time ([], g)) as [times g'].
  split; [cbn; lia|]. split; [|discriminate].
  repeat constructor; cbn; lia.
Qed.

Lemma while_loop_bounds (fuel : nat) (st st' : GenerationState) :
  bounds_inv st -> current_time st < DURATION_MS + MAX_STEP_MS ->
  while_loop sin cos pi fuel st = Finished st' ->
  bounds_inv st' /\ DURATION_MS <= current_time st' < DURATION_MS + MAX_STEP_MS.
Proof.
  revert st. induction fuel as [|fuel IH]; intros st Hb Ht; cbn [while_loop];
    [discriminate|].
  destruct (current_time st <? DURATION_MS) eqn:E.
  - apply Z.ltb_lt in E.
    destruct (iteration_bounds st Hb E) as [st1 [E1 [Hb1 Ht1]]]. rewrite E1.
    apply IH; [assumption | lia].
  - apply Z.ltb_ge in E. intros H. injection H as <-. split; [assumption | lia].
Qed.

(** A run of the loop never raises: the moves it asks for are of at most
    100 units at a multiplier of at least 1. *)
Lemma while_loop_no_raise (fuel : nat) (st : GenerationState) :
  bounds_inv st -> while_loop sin cos pi fuel st <> Raised.
Proof.
  revert st. induction fuel as [|fuel IH]; intros st Hb; cbn [while_loop];
    [discriminate|].
  destruct (current_time st <? DURATION_MS) eqn:E; [|discriminate].
  apply Z.ltb_lt in E.
  destruct (iteration_bounds st Hb E) as [st1 [E1 [Hb1 _]]]. rewrite E1.
  now apply IH.
Qed.

End SchedulerBounds.

(** ** What the finalizer keeps *)

Lemma insert_by_Forall {A : Type} (key : A -> Z) (P : A -> Prop) (x : A) (l : list A) :
  P x -> Forall P l -> Forall P (insert_by key x l).
Proof.
  intros Hx. induction 1 as [|y r Hy Hr IH]; simpl.
  - now repeat constructor.
  - destruct (key x <=? key y); repeat constructor; assumption.
Qed.

Lemma sorted_Forall {A : Type} (key : A -> Z) (P : A -> Prop) (l : list A) :
  Forall P l -> Forall P (sorted key l).
Proof.
  induction 1 as [|x l Hx Hl IH]; simpl; [constructor|].
  now apply insert_by_Forall.
Qed.

Lemma dedupe_Forall (P : Action -> Prop) (p : Z) (l : list Action) :
  Forall P l -> Forall P (dedupe p l).
Proof.
  intros H. revert p. induction H as [|a l Ha Hl IH]; intros p; simpl; [constructor|].
  destruct (at_ a =? p); [apply IH | constructor; [assumption | apply IH]].
Qed.

Lemma finalize_in_range (l : list Action) :
  positions_in_range l -> positions_in_range (finalize l).
Proof. intros H. now apply dedupe_Forall, sorted_Forall. Qed.

(** Deduplication keeps the last timestamp. *)
Lemma dedupe_last_at (p : Z) (l : list Action) :
  last_at p (dedupe p l) = last_at p l.
Proof.
  revert p. induction l as [|a l IH]; intros p; simpl; [reflexivity|].
  destruct (at_ a =? p) eqn:E.
  - apply Z.eqb_eq in E. rewrite E. apply IH.
  - simpl. apply IH.
Qed.

Section TimelineFacts.

Variables (sin cos : Q -> Q) (pi : Q).

Lemma while_loop_from_initial (fuel : nat) (g : rng) (st : GenerationState) :
  while_loop sin cos pi fuel (initial_state g) = Finished st ->
  timeline_inv st /\ bounds_inv st
  /\ DURATION_MS <= current_time st < DURATION_MS + MAX_STEP_MS.
Proof.
  intros H. split.
  - exact (while_loop_inv sin cos pi fuel _ _ (initial_state_inv g) H).
  - apply (while_loop_bounds sin cos pi fuel (initial_state g));
      [apply initial_state_bounds | | exact H].
    unfold initial_state.
    destruct (Py.for_range 5 0 draw_stroke_time ([], g)) as [times g'].
    cbn. reflexivity.
Qed.

(** When the loop is left, the closing sample is not needed: the list
    already ends at [current_time >= DURATION_MS]. *)
Lemma scheduled_actions_eq (fuel : nat) (g : rng) (l : list Action) :
  scheduled_actions sin cos pi fuel g = Finished l ->
  exists st,
    while_loop sin cos pi fuel (initial_state g) = Finished st /\ l = actions st.
Proof.
  unfold scheduled_actions.
  destruct (while_loop sin cos pi fuel (initial_state g)) as [st| |] eqn:E;
    try discriminate.
  destruct (while_loop_from_initial _ _ _ E) as [[[r Hr] [_ [Hlast _]]] [_ Ht]].
  intros H. exists st. split; [reflexivity|].
  unfold close_timeline in H.
  destruct (rev (actions st)) as [|final l0] eqn:Er; [discriminate|].
  assert (El : actions st = rev l0 ++ [final]).
  { rewrite <- (rev_involutive (actions st)), Er. reflexivity. }
  rewrite El, last_at_snoc in Hlast.
  replace (at_ final <? DURATION_MS) with false in H
    by (symmetry; apply Z.ltb_ge; lia).
  now injection H as <-.
Qed.

End TimelineFacts.

(** The timeline invariants of the data model: every position of a
    generated timeline lies in [[0, 100]], the timeline has at least two
    actions, and its last action is at the target duration or less than
    one pass of the loop ([MAX_STEP_MS] = 18000 ms) after it; in particular
    the loop is never left through the overshoot check, which needs
    [current_time > DURATION_MS + 60000]. *)
Theorem generate_edging_script_timeline (sin cos : Q -> Q) (pi : Q)
    (fuel : nat) (g : rng) (l : list Action) :
  generate_edging_script sin cos pi fuel g = Finished l ->
  positions_in_range l
  /\ (2 <= length l)%nat
  /\ DURATION_MS <= last_at 0 l < DURATION_MS + MAX_STEP_MS.
Proof.
  unfold generate_edging_script.
  destruct (scheduled_actions sin cos pi fuel g) as [l0| |] eqn:E; try discriminate.
  intros H. injection H as <-.
  destruct (scheduled_actions_eq sin cos pi fuel g l0 E) as [st [Ew ->]].
  destruct (while_loop_from_initial sin cos pi fuel g st Ew)
    as [[[r Hr] [Hasc [Hlast _]]] [[_ [Hrange _]] Ht]].
  assert (Hfin : finalize (actions st) = mkAction 0 50 :: dedupe 0 r).
  { unfold finalize.
    rewrite (sorted_of_Sorted at_ _ (ascending_from_Sorted _ _ Hasc)), Hr.
    reflexivity. }
  assert (Hlast' : last_at 0 (finalize (actions st)) = current_time st).
  { rewrite Hfin. cbn [last_at at_]. rewrite dedupe_last_at.
    rewrite Hr in Hlast. exact Hlast. }
  split; [now apply finalize_in_range|]. split; [|now rewrite Hlast'].
  rewrite Hfin. rewrite Hfin in Hlast'. cbn [last_at at_] in Hlast'.
  destruct (dedupe 0 r) as [|b r']; [|cbn; lia].
  cbn in Hlast'. unfold DURATION_MS in Ht. lia.
Qed.

Lemma generate_edging_script_timeline_witness :
  exists l,
    generate_edging_script libm_sin libm_cos libm_pi 3000 (mk_rng hash_tape 0)
    = Finished l
    /\ positions_in_range l
    /\ (2 <= length l)%nat
    /\ DURATION_MS <= last_at 0 l < DURATION_MS + MAX_STEP_MS.
Proof.
  destruct demo_script as [l E]. exists l. split; [exact E|].
  exact (generate_edging_script_timeline libm_sin libm_cos libm_pi 3000
           (mk_rng hash_tape 0) l E).
Defined.

(** The pause injector never goes back in time and adds at most 3000 ms. *)
Theorem add_pause_nondecreasing (start_time : Z) (g : rng) :
  start_time <= fst (add_pause start_time g) <= start_time + 3000.
Proof. apply add_pause_range. Qed.

(** The Duration Model gives a move of distance 0 the duration 0, in both
    directions and at every speed multiplier other than 0; at 0 it raises. *)
Theorem calculate_duration_zero_distance (up : bool) (m : Q) :
  calculate_duration 0 up m = if Qeq_bool m 0 then None else Some 0.
Proof.
  assert (Hbig : 0 < Py.OVERFLOW_INT) by (vm_compute; reflexivity).
  assert (H0 : Py.overflows (Py.float (0 * base_ms_per_unit)) = false).
  { apply (Py_overflows_small _ 0 Hbig). vm_compute. discriminate. }
  assert (Hq : Py.overflows (Py.float (0 * base_ms_per_unit) / m) = false).
  { apply (Py_overflows_small _ 0 Hbig).
    assert (E : (Py.float (0 * base_ms_per_unit) / m == 0)%Q).
    { change (Py.float (0 * base_ms_per_unit)) with 0%Q. unfold Qdiv. ring. }
    rewrite E. vm_compute. discriminate. }
  unfold calculate_duration, Py.div. rewrite H0.
  destruct (Qeq_bool m 0); [reflexivity|]. rewrite Hq.
  f_equal. apply Py_int_zero. change (Py.float (0 * base_ms_per_unit)) with 0%Q.
  destruct up; unfold Qdiv; ring.
Qed.



(** The oscillating and the eased generator emit positions in [[0, 100]]
    for every start and end position, speed multiplier and draw, and
    whatever [math.sin] and [math.cos] return: both clamp. *)
Theorem clamping_generators_in_range (sin cos : Q -> Q) (pi : Q)
    (start_pos end_pos start_time : Z) (speed_mult : Q) (g : rng) :
  positions_in_range
    (samples_of (generate_wave_motion sin pi start_pos end_pos start_time speed_mult g))
  /\ positions_in_range
       (samples_of (generate_gradual_motion cos pi start_pos end_pos start_time
                      speed_mult g)).
Proof.
  split; [apply wave_positions_clamped | apply gradual_positions_clamped].
Qed.

(** The plateaued generator and the full-range cycle, which do not clamp,
    emit positions in [[0, 100]] whenever the positions they are given lie
    in [[0, 100]]. *)
Theorem unclamped_generators_in_range
    (start_pos end_pos start_time : Z) (speed_mult : Q) (g : rng) :
  0 <= start_pos <= 100 -> 0 <= end_pos <= 100 ->
  positions_in_range
    (samples_of (generate_plateau_motion start_pos end_pos start_time speed_mult g))
  /\ positions_in_range
       (fst (fst (fst (generate_full_stroke start_pos start_time speed_mult g)))).
Proof.
  intros Hs He. split.
  - destruct (calculate_duration (Z.abs (end_pos - start_pos)) (end_pos >? start_pos)
                speed_mult) as [base|] eqn:Hd.
    + rewrite (generate_plateau_motion_eq _ _ _ _ _ _ Hd). cbn [samples_of].
      now apply plateau_samples_in_range.
    + unfold generate_plateau_motion. rewrite Hd. constructor.
  - rewrite generate_full_stroke_eq.
    destruct (start_pos <? 50); cbn [fst]; apply stroke_samples_in_range; lia.
Qed.

Lemma unclamped_generators_in_range_witness :
  positions_in_range
    (samples_of (generate_plateau_motion 20 80 0 1 (mk_rng hash_tape 0)))
  /\ positions_in_range
       (fst (fst (fst (generate_full_stroke 20 0 1 (mk_rng hash_tape 0))))).
Proof.
  apply (unclamped_generators_in_range 20 80 0 1 (mk_rng hash_tape 0)); lia.
Defined.

(** The generation routine never raises: the speed multiplier it passes on
    is never 0, no duration it asks for overflows, and the list whose last
    element it reads is never empty. *)
Theorem generate_edging_script_never_raises (sin cos : Q -> Q) (pi : Q)
    (fuel : nat) (g : rng) :
  is_raised (generate_edging_script sin cos pi fuel g) = false.
Proof.
  unfold generate_edging_script, scheduled_actions.
  destruct (while_loop sin cos pi fuel (initial_state g)) as [st| |] eqn:E.
  - destruct (while_loop_inv sin cos pi fuel _ _ (initial_state_inv g) E)
      as [[r Hr] _].
    unfold close_timeline. rewrite Hr. cbn [rev].
    destruct (rev r ++ [mkAction 0 50]) as [|final l0] eqn:Er.
    + now destruct (rev r).
    + now destruct (at_ final <? DURATION_MS).
  - now destruct (while_loop_no_raise sin cos pi fuel _ (initial_state_bounds g)).
  - reflexivity.
Qed.

(** ** The scheduler's state machine: trigger times, strokes and speed *)

Lemma insert_by_length {A : Type} (key : A -> Z) (x : A) (l : list A) :
  length (insert_by key x l) = S (length l).
Proof.
  induction l as [|y r IH]; simpl; [reflexivity|].
  destruct (key x <=? key y); simpl; [reflexivity | now rewrite IH].
Qed.

Lemma sorted_length {A : Type} (key : A -> Z) (l : list A) :
  length (sorted key l) = length l.
Proof.
  induction l as [|x l IH]; simpl; [reflexivity|].
  now rewrite insert_by_length, IH.
Qed.

Lemma draw_stroke_times (n : nat) (i : Z) (l : list Z) (g : rng) :
  exists new g',
    Py.for_range n i draw_stroke_time (l, g) = (l ++ new, g')
    /\ length new = n
    /\ Forall (fun t => 60000 <= t <= DURATION_MS - 60000) new.
Proof.
  revert i l g. induction n as [|n IH]; intros i l g.
  - exists [], g. cbn. rewrite app_nil_r. auto.
  - cbn [Py.for_range]. unfold draw_stroke_time at 2.
    pose proof (randint_range 60000 (DURATION_MS - 60000) g) as Hr.
    destruct (Random.randint 60000 (DURATION_MS - 60000) g) as [t g1].
    cbn [fst] in Hr.
    destruct (IH (i + 1) (l ++ [t]) g1) as [new [g' [E [Hlen Hall]]]].
    exists (t :: new), g'. rewrite E, <- app_assoc. cbn [app length].
    split; [reflexivity|]. split; [now rewrite Hlen|].
    constructor; [|assumption]. apply Hr. unfold DURATION_MS. lia.
Qed.

Lemma initial_state_fields (g : rng) :
  exists times g',
    initial_state g
    = mkState [mkAction 0 50] 0 50 (sorted (fun t => t) times) 0
              SPEED_VARIATION_INTERVAL 1 false g'
    /\ length times = 5%nat
    /\ Forall (fun t => 60000 <= t <= DURATION_MS - 60000) times.
Proof.
  unfold initial_state.
  destruct (draw_stroke_times 5 0 [] g) as [new [g' [E [Hlen Hall]]]].
  rewrite E. cbn [app]. exists new, g'.
  split; [reflexivity|]. split; assumption.
Qed.

Lemma initial_state_strokes (g : rng) : stroke_inv (initial_state g).
Proof.
  destruct (initial_state_fields g) as [times [g' [-> [Hlen Hall]]]].
  unfold stroke_inv. cbn [full_stroke_times full_stroke_index current_time].
  split; [now rewrite sorted_length|]. split; [now apply sorted_Forall|].
  split; [lia|]. intros _. reflexivity.
Qed.

Lemma update_speed_frame (st : GenerationState) :
  actions (update_speed st) = actions st
  /\ current_time (update_speed st) = current_time st
  /\ current_pos (update_speed st) = current_pos st
  /\ full_stroke_times (update_speed st) = full_stroke_times st
  /\ full_stroke_index (update_speed st) = full_stroke_index st.
Proof.
  unfold update_speed.
  destruct (current_time st >=? next_speed_change st); [|auto].
  destruct (in_speed_variation st); [cbn; auto|].
  destruct (Random.uniform (10 # 100) (30 # 100) (rand st)); cbn; auto.
Qed.

Lemma update_speed_speed (st : GenerationState) :
  speed_inv st -> speed_inv (update_speed st).
Proof.
  intros H. unfold update_speed.
  destruct (current_time st >=? next_speed_change st); [|assumption].
  destruct (in_speed_variation st) eqn:E.
  - left. cbn. split; reflexivity.
  - pose proof (uniform_range (10 # 100) (30 # 100) (rand st)) as Hu.
    destruct (Random.uniform (10 # 100) (30 # 100) (rand st)) as [u g'].
    cbn [fst] in Hu. right. cbn. split; [reflexivity|].
    assert (Hab : ((10 # 100) <= (30 # 100))%Q) by discriminate.
    specialize (Hu Hab). split; lra.
Qed.

Section StateMachine.

Variables (sin cos : Q -> Q) (pi : Q).

(** What a pass started before [DURATION_MS] does to the state: it either
    inserts the due full stroke, or makes a regular move. *)
Lemma iteration_shape (st : GenerationState) :
  bounds_inv st -> current_time st < DURATION_MS ->
  exists st',
    iteration sin cos pi st = Continue st'
    /\ full_stroke_times st' = full_stroke_times st
    /\ speed_multiplier st' = speed_multiplier (update_speed st)
    /\ in_speed_variation st' = in_speed_variation (update_speed st)
    /\ ((stroke_due (update_speed st) = true
         /\ full_stroke_index st' = S (full_stroke_index st)
         /\ current_time st' <= current_time st + 10000
         /\ (current_pos st' = 0 \/ current_pos st' = 100))
        \/ (stroke_due (update_speed st) = false
            /\ full_stroke_index st' = full_stroke_index st
            /\ current_time st' <= current_time st + MAX_STEP_MS)).
Proof.
  intros H0 Hnow. destruct (update_speed_bounds st H0) as [H1 _].
  destruct (update_speed_frame st) as [_ [Et [_ [Etimes Eidx]]]].
  unfold iteration. fold (stroke_due (update_speed st)).
  set (st1 := update_speed st) in *. rewrite <- Et, <- Etimes, <- Eidx in *.
  destruct H1 as [Hp [Hr Hm]].
  destruct (stroke_due st1).
  - rewrite generate_full_stroke_eq.
    pose proof (stroke_total_duration_range (rand st1)) as HT.
    assert (Hup : leg_duration (stroke_total_duration (rand st1)) true <= 4000).
    { rewrite leg_duration_up by lia. apply Z.div_le_upper_bound; lia. }
    assert (Hdown : leg_duration (stroke_total_duration (rand st1)) false <= 6000).
    { rewrite leg_duration_down by lia. apply Z.div_le_upper_bound; lia. }
    destruct (current_pos st1 <? 50); eexists; (split; [reflexivity|]);
      cbn [full_stroke_times speed_multiplier in_speed_variation
           full_stroke_index current_time current_pos];
      repeat (split; [reflexivity|]); left;
      (split; [reflexivity|]); (split; [reflexivity|]);
      (split; [lia | auto]).
  - destruct (maybe_pause_bounds st1 (rand st1) (conj Hp (conj Hr Hm)))
      as [acts [now [g1 [E1 [Hacts Hpause]]]]].
    rewrite E1.
    destruct (Random.choice wave [wave; gradual; plateau; gradual; wave] g1)
      as [motion_type g2].
    pose proof (choose_target_range (current_pos st1) g2) as Htarget.
    destruct (choose_target (current_pos st1) g2) as [target_pos g3].
    cbn [fst] in Htarget.
    destruct (generate_motion_bounds sin cos pi motion_type (current_pos st1)
                target_pos now (speed_multiplier st1) g3 Hm Hp)
      as [samples [t [g4 [E4 [Ht Hsamples]]]]]; [lia|].
    rewrite E4.
    assert (Hstep : t <= current_time st1 + MAX_STEP_MS)
      by (unfold MAX_STEP_MS; lia).
    replace (t >? DURATION_MS + 60000) with false.
    + eexists. split; [reflexivity|].
      cbn [full_stroke_times speed_multiplier in_speed_variation
           full_stroke_index current_time current_pos].
      repeat (split; [reflexivity|]). right.
      split; [reflexivity|]. split; [reflexivity | exact Hstep].
    + symmetry. apply not_true_is_false. intro C. apply Z.gtb_lt in C.
      unfold MAX_STEP_MS, base_ms_per_unit in Hstep. lia.
Qed.

Lemma iteration_strokes (st : GenerationState) :
  bounds_inv st -> stroke_inv st -> current_time st < DURATION_MS ->
  exists st',
    iteration sin cos pi st = Continue st' /\ bounds_inv st' /\ stroke_inv st'.
Proof.
  intros Hb [Hlen [Hall [Hidx Hearly]]] Hnow.
  destruct (iteration_bounds sin cos pi st Hb Hnow) as [st2 [E2 [Hb2 _]]].
  destruct (iteration_shape st Hb Hnow)
    as [st' [E [Etimes [_ [_ Hcase]]]]].
  rewrite E in E2. injection E2 as <-.
  exists st'. split; [exact E|]. split; [exact Hb2|].
  destruct (update_speed_frame st) as [_ [Et [_ [Etimes1 Eidx1]]]].
  unfold stroke_inv. rewrite Etimes.
  split; [exact Hlen|]. split; [exact Hall|].
  destruct Hcase as [[Hdue [Ei [Ht _]]] | [Hdue [Ei Ht]]]; rewrite Ei.
  - unfold stroke_due in Hdue. rewrite Etimes1, Eidx1, Hlen in Hdue.
    apply andb_true_iff in Hdue. destruct Hdue as [Hlt _].
    apply Nat.ltb_lt in Hlt. split; [lia|]. intros Hnext.
    specialize (Hearly Hlt). lia.
  - split; [exact Hidx|]. intros Hlt. specialize (Hearly Hlt).
    unfold stroke_due in Hdue. rewrite Etimes1, Eidx1, Et, Hlen in Hdue.
    apply andb_false_iff in Hdue. destruct Hdue as [Hd | Hd].
    + apply Nat.ltb_ge in Hd. lia.
    + assert (Hn : current_time st < nth (full_stroke_index st) (full_stroke_times st) 0).
      { destruct (Z.geb_spec (current_time st)
                    (nth (full_stroke_index st) (full_stroke_times st) 0));
          [discriminate | lia]. }
      rewrite Forall_forall in Hall.
      assert (Hin : In (nth (full_stroke_index st) (full_stroke_times st) 0)
                       (full_stroke_times st)) by (apply nth_In; lia).
      specialize (Hall _ Hin). lia.
Qed.

Lemma while_loop_strokes (fuel : nat) (st st' : GenerationState) :
  bounds_inv st -> stroke_inv st ->
  while_loop sin cos pi fuel st = Finished st' ->
  stroke_inv st' /\ DURATION_MS <= current_time st'.
Proof.
  revert st. induction fuel as [|fuel IH]; intros st Hb Hs; cbn [while_loop];
    [discriminate|].
  destruct (current_time st <? DURATION_MS) eqn:E.
  - apply Z.ltb_lt in E.
    destruct (iteration_strokes st Hb Hs E) as [st1 [E1 [Hb1 Hs1]]]. rewrite E1.
    now apply IH.
  - apply Z.ltb_ge in E. intros H. injection H as <-. now split.
Qed.

End StateMachine.

(** Whenever the loop is left, all five scheduled full strokes have been
    inserted: a trigger time lies at least 60000 ms before the end, a pass
    takes at most 18000 ms and a full stroke at most 10000 ms, so no
    trigger is left over when [current_time] reaches [DURATION_MS]. *)
Theorem all_full_strokes_inserted (sin cos : Q -> Q) (pi : Q)
    (fuel : nat) (g : rng) (st : GenerationState) :
  while_loop sin cos pi fuel (initial_state g) = Finished st ->
  full_stroke_index st = 5%nat
  /\ full_stroke_index st = length (full_stroke_times st).
Proof.
  intros H.
  destruct (while_loop_strokes sin cos pi fuel _ _ (initial_state_bounds g)
              (initial_state_strokes g) H)
    as [[Hlen [_ [Hidx Hearly]]] Ht].
  assert (E : full_stroke_index st = 5%nat).
  { destruct (Nat.eq_dec (full_stroke_index st) 5) as [E | E]; [exact E|].
    assert (Hlt : (full_stroke_index st < 5)%nat) by lia.
    specialize (Hearly Hlt). unfold MAX_STEP_MS, base_ms_per_unit in Hearly. lia. }
  split; [exact E | now rewrite Hlen].
Qed.

Lemma demo_loop :
  exists st,
    while_loop libm_sin libm_cos libm_pi 3000 (initial_state (mk_rng hash_tape 0))
    = Finished st.
Proof.
  destruct demo_run as [l E].
  destruct (scheduled_actions_eq _ _ _ _ _ _ E) as [st [Ew _]].
  exists st. exact Ew.
Qed.

Lemma all_full_strokes_inserted_witness :
  exists st,
    while_loop libm_sin libm_cos libm_pi 3000 (initial_state (mk_rng hash_tape 0))
    = Finished st
    /\ full_stroke_index st = 5%nat
    /\ full_stroke_index st = length (full_stroke_times st).
Proof.
  destruct demo_loop as [st E]. exists st. split; [exact E|].
  exact (all_full_strokes_inserted libm_sin libm_cos libm_pi 3000
           (mk_rng hash_tape 0) st E).
Defined.

(** The five trigger times are drawn inside the safety margins
    [[60000, DURATION_MS - 60000]] and kept in ascending order; none has
    been consumed when the loop starts. *)
Theorem trigger_times_scheduled (g : rng) :
  length (full_stroke_times (initial_state g)) = 5%nat
  /\ Sorted Z.le (full_stroke_times (initial_state g))
  /\ Forall (fun t => 60000 <= t <= DURATION_MS - 60000)
            (full_stroke_times (initial_state g))
  /\ full_stroke_index (initial_state g) = 0%nat.
Proof.
  destruct (initial_state_fields g) as [times [g' [-> [Hlen Hall]]]].
  cbn [full_stroke_times full_stroke_index].
  split; [now rewrite sorted_length|].
  split; [exact (sorted_Sorted (fun t => t) times)|].
  split; [now apply sorted_Forall | reflexivity].
Qed.

Lemma iteration_speed (sin cos : Q -> Q) (pi : Q) (st st' : GenerationState) :
  iteration sin cos pi st = Continue st' ->
  speed_multiplier st' = speed_multiplier (update_speed st)
  /\ in_speed_variation st' = in_speed_variation (update_speed st).
Proof.
  unfold iteration. set (st1 := update_speed st).
  destruct ((full_stroke_index st1 <? length (full_stroke_times st1))%nat
            && (current_time st1 >=? nth (full_stroke_index st1) (full_stroke_times st1) 0)).
  - destruct (generate_full_stroke (current_pos st1) (current_time st1)
                (speed_multiplier st1) (rand st1)) as [[[l t] p] g'].
    intros H. injection H as <-. cbn. auto.
  - destruct (maybe_pause st1 (rand st1)) as [[acts now] g1].
    destruct (Random.choice wave [wave; gradual; plateau; gradual; wave] g1)
      as [motion_type g2].
    destruct (choose_target (current_pos st1) g2) as [target_pos g3].
    destruct (generate_motion sin cos pi motion_type (current_pos st1) target_pos now
                (speed_multiplier st1) g3) as [[[l t] g4]|]; [|discriminate].
    destruct (t >? DURATION_MS + 60000); [discriminate|].
    intros H. injection H as <-. cbn. auto.
Qed.

Lemma initial_state_speed (g : rng) : speed_inv (initial_state g).
Proof.
  destruct (initial_state_fields g) as [times [g' [-> _]]].
  left. cbn. split; reflexivity.
Qed.

(** In every state the loop reaches, the speed multiplier is 1 outside a
    speed variation and between 1.1 and 1.3 inside one: no other value is
    passed to a generator. *)
Theorem speed_multiplier_two_states (sin cos : Q -> Q) (pi : Q)
    (g : rng) (st : GenerationState) :
  reachable sin cos pi g st -> speed_inv st /\ speed_inv (update_speed st).
Proof.
  intros H. assert (Hs : speed_inv st).
  { induction H as [|st st' Hr IH Hnow E]; [apply initial_state_speed|].
    destruct (iteration_speed sin cos pi st st' E) as [Em Ev].
    pose proof (update_speed_speed st IH) as H1.
    unfold speed_inv in *. now rewrite Em, Ev. }
  split; [exact Hs | now apply update_speed_speed].
Qed.

Lemma passes_reachable (sin cos : Q -> Q) (pi : Q) (g : rng)
    (n : nat) (st st' : GenerationState) :
  reachable sin cos pi g st ->
  passes sin cos pi n st = Some st' ->
  reachable sin cos pi g st'.
Proof.
  revert st. induction n as [|n IH]; intros st Hr; cbn [passes].
  - intros H. apply Some_eq in H. now subst st'.
  - destruct (current_time st <? DURATION_MS) eqn:Et; [|discriminate].
    apply Z.ltb_lt in Et.
    destruct (iteration sin cos pi st) as [st1|st1|] eqn:E; try discriminate.
    apply IH. now apply (reach_pass sin cos pi g st st1).
Qed.

(** On [hash_tape] the 23rd pass ends after the first minute: the state it
    leaves is at normal speed, and the speed check of the next pass starts
    the first speed variation. *)
Lemma demo_passes_flags :
  match passes libm_sin libm_cos libm_pi 23 (initial_state (mk_rng hash_tape 0)) with
  | Some st => negb (in_speed_variation st) && in_speed_variation (update_speed st)
  | None => false
  end = true.
Proof. vm_compute. reflexivity. Qed.

Lemma speed_multiplier_two_states_witness :
  exists st,
    passes libm_sin libm_cos libm_pi 23 (initial_state (mk_rng hash_tape 0)) = Some st
    /\ reachable libm_sin libm_cos libm_pi (mk_rng hash_tape 0) st
    /\ in_speed_variation st = false
    /\ in_speed_variation (update_speed st) = true
    /\ speed_inv st
    /\ speed_inv (update_speed st).
Proof.
  pose proof demo_passes_flags as F.
  destruct (passes libm_sin libm_cos libm_pi 23 (initial_state (mk_rng hash_tape 0)))
    as [st|] eqn:E; [|discriminate F].
  apply andb_true_iff in F. destruct F as [F1 F2]. apply negb_true_iff in F1.
  assert (Hr : reachable libm_sin libm_cos libm_pi (mk_rng hash_tape 0) st).
  { apply (passes_reachable libm_sin libm_cos libm_pi (mk_rng hash_tape 0) 23
             (initial_state (mk_rng hash_tape 0)) st (reach_initial _ _ _ _) E). }
  exists st. split; [reflexivity|]. split; [exact Hr|].
  split; [exact F1|]. split; [exact F2|].
  exact (speed_multiplier_two_states libm_sin libm_cos libm_pi (mk_rng hash_tape 0)
           st Hr).
Defined.

(** ** The entry point: the average speed *)

(** What [generate_edging_script] hands to [main]. *)
Lemma generated_timeline_facts (sin cos : Q -> Q) (pi : Q)
    (fuel : nat) (g : rng) (l : list Action) :
  generate_edging_script sin cos pi fuel g = Finished l ->
  positions_in_range l
  /\ Sorted lt_at l
  /\ (exists r, l = mkAction 0 50 :: r)
  /\ DURATION_MS <= last_at 0 l < DURATION_MS + MAX_STEP_MS.
Proof.
  unfold generate_edging_script.
  destruct (scheduled_actions sin cos pi fuel g) as [l0| |] eqn:E; try discriminate.
  intros H. injection H as <-.
  destruct (scheduled_actions_eq sin cos pi fuel g l0 E) as [st [Ew ->]].
  destruct (while_loop_from_initial sin cos pi fuel g st Ew)
    as [[[r Hr] [Hasc [Hlast _]]] [[_ [Hrange _]] Ht]].
  assert (Hfin : finalize (actions st) = mkAction 0 50 :: dedupe 0 r).
  { unfold finalize.
    rewrite (sorted_of_Sorted at_ _ (ascending_from_Sorted _ _ Hasc)), Hr.
    reflexivity. }
  split; [now apply finalize_in_range|]. split; [apply finalize_strict|].
  split; [now exists (dedupe 0 r)|].
  rewrite Hfin. cbn [last_at at_]. rewrite dedupe_last_at.
  rewrite Hr in Hlast. cbn [last_at at_] in Hlast. now rewrite Hlast.
Qed.

Lemma total_distance_nonneg (l : list Action) : 0 <= total_distance l.
Proof.
  induction l as [|a l IH]; [reflexivity|].
  destruct l as [|b r]; [reflexivity|].
  change (0 <= Z.abs (pos b - pos a) + total_distance (b :: r)). lia.
Qed.

Lemma rev_last_at (p : Z) (l l0 : list Action) (final : Action) :
  rev l = final :: l0 -> last_at p l = at_ final.
Proof.
  intros E. assert (El : l = rev l0 ++ [final]).
  { rewrite <- (rev_involutive l), E. reflexivity. }
  rewrite El. apply last_at_snoc.
Qed.

Lemma calculate_average_speed_positive_time (l : list Action) :
  0 < last_at 0 l ->
  exists avg, calculate_average_speed l = Finished avg /\ 0 <= avg.
Proof.
  intros Hlast. unfold calculate_average_speed.
  destruct (rev l) as [|final l0] eqn:E.
  - apply (f_equal (@rev Action)) in E. rewrite rev_involutive in E.
    subst l. cbn in Hlast. lia.
  - rewrite (rev_last_at 0 l l0 final E) in Hlast.
    assert (Hs : (0 < Py.float (at_ final) / 1000)%Q).
    { apply Qlt_shift_div_l; [reflexivity|]. rewrite Qmult_0_l.
      now apply Py_float_pos. }
    rewrite (Py_div_pos _ _ Hs). eexists. split; [reflexivity|].
    apply Py_int_nonneg_le. apply Qle_shift_div_l; [assumption|].
    rewrite Qmult_0_l. apply (Py_float_le 0). apply total_distance_nonneg.
Qed.


(** On every timeline the generator returns, [main] computes the average
    speed without raising (the last timestamp is at least [DURATION_MS])
    and builds the script around the generated actions: range 100, duration
    [DURATION_MS], a non-negative average speed. *)
Theorem main_builds_script (sin cos : Q -> Q) (pi : Q)
    (fuel : nat) (g : rng) (l : list Action) :
  generate_edging_script sin cos pi fuel g = Finished l ->
  exists fs,
    main sin cos pi fuel g = Finished fs
    /\ script_actions fs = l
    /\ range fs = 100
    /\ inverted fs = false
    /\ duration (metadata fs) = DURATION_MS
    /\ calculate_average_speed l = Finished (average_speed (metadata fs))
    /\ 0 <= average_speed (metadata fs).
Proof.
  intros H. destruct (generated_timeline_facts sin cos pi fuel g l H)
    as [_ [_ [_ Hlast]]].
  destruct (calculate_average_speed_positive_time l) as [avg [E Havg]].
  { unfold DURATION_MS in Hlast. lia. }
  unfold main. rewrite H, E. eexists. split; [reflexivity|].
  cbn. repeat split; try reflexivity; assumption.
Qed.

Lemma main_builds_script_witness :
  exists l fs,
    generate_edging_script libm_sin libm_cos libm_pi 3000 (mk_rng hash_tape 0)
    = Finished l
    /\ main libm_sin libm_cos libm_pi 3000 (mk_rng hash_tape 0) = Finished fs
    /\ script_actions fs = l
    /\ range fs = 100
    /\ inverted fs = false
    /\ duration (metadata fs) = DURATION_MS
    /\ calculate_average_speed l = Finished (average_speed (metadata fs))
    /\ 0 <= average_speed (metadata fs).
Proof.
  destruct demo_script as [l E].
  destruct (main_builds_script libm_sin libm_cos libm_pi 3000
              (mk_rng hash_tape 0) l E) as [fs H].
  exists l, fs. split; [exact E | exact H].
Defined.

(** ** The full-stroke verifier *)










(** ** The verifier on one generated full-range cycle *)












(** ** The finalizer keeps every timestamp *)

Lemma insert_by_In {A : Type} (key : A -> Z) (x y : A) (l : list A) :
  In x (insert_by key y l) <-> x = y \/ In x l.
Proof.
  induction l as [|z l IH]; cbn [insert_by]; [cbn; intuition auto|].
  destruct (key y <=? key z); cbn [In]; [intuition auto|].
  rewrite IH. intuition auto.
Qed.

Lemma sorted_In {A : Type} (key : A -> Z) (x : A) (l : list A) :
  In x (sorted key l) <-> In x l.
Proof.
  unfold sorted. induction l as [|y l IH]; cbn [fold_right In]; [reflexivity|].
  rewrite insert_by_In, IH. intuition auto.
Qed.

Lemma dedupe_In (last_time : Z) (l : list Action) (a : Action) :
  In a (dedupe last_time l) -> In a l.
Proof.
  revert last_time. induction l as [|b l IH]; intros last_time; cbn [dedupe]; [auto|].
  destruct (at_ b =? last_time); cbn [In]; [eauto|].
  intros [H | H]; [auto | eauto].
Qed.

Lemma dedupe_keeps_at (last_time : Z) (l : list Action) (t : Z) :
  In t (map at_ l) -> t = last_time \/ In t (map at_ (dedupe last_time l)).
Proof.
  revert last_time. induction l as [|b l IH]; intros last_time; cbn [map In dedupe];
    [contradiction|].
  destruct (at_ b =? last_time) eqn:E.
  - apply Z.eqb_eq in E. intros [H | H]; [left; congruence | now apply IH].
  - cbn [map In]. intros [H | H]; [right; now left|].
    destruct (IH (at_ b) H) as [H' | H']; right; [left; congruence | now right].
Qed.

(** The closing step of the generation routine invents nothing and loses
    no timestamp: every action it returns is one it was given, and every
    timestamp it was given comes back (exactly once, the result being
    strictly increasing), provided no timestamp is negative.  The proviso
    is needed: the loop starts from [last_time = -1], so an action at -1
    that sorts first is dropped. *)
Theorem finalize_keeps_timestamps (l : list Action) :
  Forall (fun a => 0 <= at_ a) l ->
  (forall a, In a (finalize l) -> In a l)
  /\ (forall t, In t (map at_ l) <-> In t (map at_ (finalize l)))
  /\ Sorted lt_at (finalize l)
  /\ finalize [mkAction (-1) 50; mkAction 0 50] = [mkAction 0 50].
Proof.
  intros Hl. unfold finalize.
  assert (Hsub : forall a, In a (dedupe (-1) (sorted at_ l)) -> In a l).
  { intros a H. apply dedupe_In in H. now apply sorted_In in H. }
  split; [exact Hsub|]. split; [|split; [apply (finalize_strict l) | reflexivity]].
  intros t. split.
  - intros H. apply in_map_iff in H. destruct H as [a [<- Ha]].
    rewrite Forall_forall in Hl. pose proof (Hl a Ha) as H0.
    assert (Hs : In (at_ a) (map at_ (sorted at_ l))).
    { apply in_map. now apply sorted_In. }
    destruct (dedupe_keeps_at (-1) _ _ Hs) as [H | H]; [lia | exact H].
  - intros H. apply in_map_iff in H. destruct H as [a [<- Ha]].
    apply in_map. now apply Hsub.
Qed.

Lemma finalize_keeps_timestamps_witness :
  (forall a, In a (finalize [mkAction 500 60; mkAction 0 50; mkAction 500 70]) ->
             In a [mkAction 500 60; mkAction 0 50; mkAction 500 70])
  /\ (forall t,
        In t (map at_ [mkAction 500 60; mkAction 0 50; mkAction 500 70])
        <-> In t (map at_ (finalize [mkAction 500 60; mkAction 0 50; mkAction 500 70])))
  /\ Sorted lt_at (finalize [mkAction 500 60; mkAction 0 50; mkAction 500 70])
  /\ finalize [mkAction (-1) 50; mkAction 0 50] = [mkAction 0 50].
Proof.
  apply (finalize_keeps_timestamps [mkAction 500 60; mkAction 0 50; mkAction 500 70]).
  repeat constructor; cbn; lia.
Defined.

(** ** The analyzer *)

Lemma fold_left_add_acc (l : list Z) (acc : Z) :
  fold_left Z.add l acc = acc + py_sum l.
Proof.
  unfold py_sum. revert acc.
  induction l as [|x l IH]; intros acc; cbn [fold_left]; [lia|].
  rewrite (IH (acc + x)), (IH (0 + x)). lia.
Qed.

Lemma py_sum_cons (x : Z) (l : list Z) : py_sum (x :: l) = x + py_sum l.
Proof. unfold py_sum at 1. cbn [fold_left]. rewrite fold_left_add_acc. lia. Qed.

Lemma fold_left_Qplus_ge (l : list Q) (acc : Q) :
  Forall (fun s => 0 < s)%Q l -> (acc <= fold_left Qplus l acc)%Q.
Proof.
  intros H. revert acc. induction H as [|x l Hx _ IH]; intros acc; cbn [fold_left];
    [lra|].
  specialize (IH (acc + x)%Q). lra.
Qed.

Lemma py_len_pos {A : Type} (l : list A) : l <> [] -> (0 < py_len l)%Q.
Proof.
  intros H. unfold py_len. apply Py_float_pos.
  destruct l; [contradiction | cbn [length]; lia].
Qed.

Lemma segment_durations_length (a : Action) (l : list Action) :
  length (segment_durations (a :: l)) = length l.
Proof.
  revert a. induction l as [|b l IH]; intros a; [reflexivity|].
  change (segment_durations (a :: b :: l))
    with ((at_ b - at_ a) :: segment_durations (b :: l)).
  cbn [length]. f_equal. apply IH.
Qed.

(** The segment durations telescope. *)
Lemma segment_durations_sum (a : Action) (l : list Action) :
  py_sum (segment_durations (a :: l)) = last_at (at_ a) l - at_ a.
Proof.
  revert a. induction l as [|b l IH]; intros a.
  - cbn. lia.
  - change (segment_durations (a :: b :: l))
      with ((at_ b - at_ a) :: segment_durations (b :: l)).
    cbn [last_at]. rewrite py_sum_cons, IH. lia.
Qed.

Lemma segment_durations_strict (l : list Action) :
  Sorted lt_at l -> Forall (fun d => 1 <= d) (segment_durations l).
Proof.
  induction l as [|a l IH]; intros H; [constructor|].
  destruct l as [|b l]; [constructor|].
  change (segment_durations (a :: b :: l))
    with ((at_ b - at_ a) :: segment_durations (b :: l)).
  inversion H as [|? ? Hs Hh]; subst.
  constructor; [|now apply IH].
  inversion Hh as [|? ? Hab]; subst. unfold lt_at in Hab. lia.
Qed.

Lemma fold_min_spec (l : list Z) (x : Z) :
  fold_left Z.min l x <= x /\ Forall (fun d => fold_left Z.min l x <= d) l.
Proof.
  revert x. induction l as [|y l IH]; intros x; cbn [fold_left]; [split; [lia | constructor]|].
  destruct (IH (Z.min x y)) as [H1 H2]. split; [lia|].
  constructor; [lia | exact H2].
Qed.

Lemma fold_max_spec (l : list Z) (x : Z) :
  x <= fold_left Z.max l x /\ Forall (fun d => d <= fold_left Z.max l x) l.
Proof.
  revert x. induction l as [|y l IH]; intros x; cbn [fold_left]; [split; [lia | constructor]|].
  destruct (IH (Z.max x y)) as [H1 H2]. split; [lia|].
  constructor; [lia | exact H2].
Qed.

Lemma fold_min_ge (lo : Z) (l : list Z) (x : Z) :
  lo <= x -> Forall (fun d => lo <= d) l -> lo <= fold_left Z.min l x.
Proof.
  revert x. induction l as [|y l IH]; intros x Hx H; cbn [fold_left]; [exact Hx|].
  inversion H; subst. apply IH; [lia | assumption].
Qed.

Lemma py_min_spec (l : list Z) (m : Z) :
  py_min l = Some m -> Forall (fun d => m <= d) l.
Proof.
  destruct l as [|x l]; [discriminate|]. cbn [py_min]. intros H. injection H as <-.
  destruct (fold_min_spec l x) as [H1 H2]. now constructor.
Qed.

Lemma py_max_spec (l : list Z) (m : Z) :
  py_max l = Some m -> Forall (fun d => d <= m) l.
Proof.
  destruct l as [|x l]; [discriminate|]. cbn [py_max]. intros H. injection H as <-.
  destruct (fold_max_spec l x) as [H1 H2]. now constructor.
Qed.

Lemma py_min_ge (lo : Z) (l : list Z) (m : Z) :
  py_min l = Some m -> Forall (fun d => lo <= d) l -> lo <= m.
Proof.
  destruct l as [|x l]; [discriminate|]. cbn [py_min]. intros H Hl. injection H as <-.
  inversion Hl; subst. now apply fold_min_ge.
Qed.

Lemma py_sum_ge (m : Z) (l : list Z) :
  Forall (fun d => m <= d) l -> m * Z.of_nat (length l) <= py_sum l.
Proof.
  induction 1 as [|x l Hx _ IH]; [cbn; lia|].
  rewrite py_sum_cons. cbn [length]. lia.
Qed.

Lemma py_sum_le (m : Z) (l : list Z) :
  Forall (fun d => d <= m) l -> py_sum l <= m * Z.of_nat (length l).
Proof.
  induction 1 as [|x l Hx _ IH]; [cbn; lia|].
  rewrite py_sum_cons. cbn [length]. lia.
Qed.

(** The mean of a non-empty list of ints lies between its bounds. *)
Lemma int_mean_between (lo hi : Z) (l : list Z) :
  l <> [] -> Forall (fun d => lo <= d) l -> Forall (fun d => d <= hi) l ->
  (Py.float lo <= Py.float (py_sum l) / py_len l <= Py.float hi)%Q.
Proof.
  intros Hne Hlo Hhi. pose proof (py_len_pos l Hne) as Hn.
  apply py_sum_ge in Hlo. apply py_sum_le in Hhi.
  unfold py_len, Py.float in *. split.
  - apply Qle_shift_div_l; [exact Hn|].
    rewrite <- inject_Z_mult, <- Zle_Qle. exact Hlo.
  - apply Qle_shift_div_r; [exact Hn|].
    rewrite <- inject_Z_mult, <- Zle_Qle. exact Hhi.
Qed.

Lemma count_if_range {A : Type} (f : A -> bool) (l : list A) :
  0 <= count_if f l <= Z.of_nat (length l).
Proof.
  unfold count_if. pose proof (filter_length_le f l). lia.
Qed.

Lemma find_pauses_long (l : list Action) :
  Forall (fun d => 500 < d) (find_pauses l).
Proof.
  induction l as [|a l IH]; [constructor|].
  destruct l as [|b l]; [constructor|].
  change (find_pauses (a :: b :: l))
    with (if pos a =? pos b then
            if at_ b - at_ a >? 500 then (at_ b - at_ a) :: find_pauses (b :: l)
            else find_pauses (b :: l)
          else find_pauses (b :: l)).
  destruct (pos a =? pos b); [|exact IH].
  destruct (at_ b - at_ a >? 500) eqn:E; [|exact IH].
  constructor; [|exact IH]. apply Z.gtb_lt in E. exact E.
Qed.

Lemma summarize_pauses_some (l : list Z) :
  exists s, summarize_pauses l = Some s.
Proof.
  destruct l as [|x l]; [now exists None|].
  unfold summarize_pauses.
  rewrite (Py_div_pos _ _ (py_len_pos (x :: l) ltac:(discriminate))).
  cbn [py_max]. eexists. reflexivity.
Qed.

Lemma segment_speed_positive (a b : Action) :
  exists up down,
    segment_speed a b = Some (up, down)
    /\ Forall (fun s => 0 < s)%Q up /\ Forall (fun s => 0 < s)%Q down.
Proof.
  unfold segment_speed.
  destruct ((Z.abs (pos b - pos a) >? 5) && (at_ b - at_ a >? 0)) eqn:E.
  - apply andb_true_iff in E. destruct E as [Ed Et].
    apply Z.gtb_lt in Ed. apply Z.gtb_lt in Et.
    assert (Hd : (0 < Py.float (Z.abs (pos b - pos a)))%Q) by (apply Py_float_pos; lia).
    assert (Ht : (0 < Py.float (at_ b - at_ a) / 1000)%Q).
    { apply Qlt_shift_div_l; [reflexivity|]. rewrite Qmult_0_l. now apply Py_float_pos. }
    rewrite (Py_div_pos _ _ Ht).
    assert (Hs : (0 < Py.float (Z.abs (pos b - pos a)) / (Py.float (at_ b - at_ a) / 1000))%Q).
    { apply Qlt_shift_div_l; [exact Ht|]. now rewrite Qmult_0_l. }
    destruct (pos b >? pos a); [|destruct (pos b <? pos a)];
      do 2 eexists; (split; [reflexivity|]); split; repeat constructor; exact Hs.
  - exists [], []. repeat split; constructor.
Qed.

Lemma motion_speeds_positive (l : list Action) :
  exists up down,
    motion_speeds l = Some (up, down)
    /\ Forall (fun s => 0 < s)%Q up /\ Forall (fun s => 0 < s)%Q down.
Proof.
  induction l as [|a l IH]; [exists [], []; repeat split; constructor|].
  destruct l as [|b l]; [exists [], []; repeat split; constructor|].
  destruct IH as [ups [downs [E [Hu Hd]]]].
  destruct (segment_speed_positive a b) as [up [down [E1 [Hu1 Hd1]]]].
  change (motion_speeds (a :: b :: l))
    with (match segment_speed a b, motion_speeds (b :: l) with
          | Some (up, down), Some (ups, downs) => Some (up ++ ups, down ++ downs)
          | _, _ => None
          end).
  rewrite E1, E. exists (up ++ ups), (down ++ downs).
  split; [reflexivity|]. split; apply Forall_app; split; assumption.
Qed.

Lemma py_mean_positive (l : list Q) :
  l <> [] -> Forall (fun s => 0 < s)%Q l ->
  exists m, py_mean l = Some m /\ (0 < m)%Q.
Proof.
  intros Hne H. unfold py_mean.
  rewrite (Py_div_pos _ _ (py_len_pos l Hne)). eexists. split; [reflexivity|].
  apply Qlt_shift_div_l; [now apply py_len_pos|]. rewrite Qmult_0_l.
  destruct H as [|x r Hx Hr]; [contradiction|].
  unfold py_fsum. cbn [fold_left].
  pose proof (fold_left_Qplus_ge r (0 + x)%Q Hr). lra.
Qed.

Lemma summarize_speeds_some (up down : list Q) :
  Forall (fun s => 0 < s)%Q up -> Forall (fun s => 0 < s)%Q down ->
  exists s, summarize_speeds up down = Some s.
Proof.
  intros Hu Hd. unfold summarize_speeds.
  destruct up as [|u up]; [now exists None|].
  destruct down as [|d down]; [now exists None|].
  destruct (py_mean_positive (u :: up) ltac:(discriminate) Hu) as [mu [-> _]].
  destruct (py_mean_positive (d :: down) ltac:(discriminate) Hd) as [md [-> Hmd]].
  rewrite (Py_div_pos _ _ Hmd). eexists. reflexivity.
Qed.

Lemma percentages_map (counts : list Z) (n : Q) :
  (0 < n)%Q ->
  percentages counts n
  = Some (map (fun c => (Py.float c / n * 100)%Q) counts).
Proof.
  intros Hn. induction counts as [|c counts IH]; [reflexivity|].
  cbn [percentages map]. now rewrite (Py_div_pos _ _ Hn), IH.
Qed.

Lemma count_position_total (r : PosRanges) (a : Action) :
  range_total (count_position r a) = range_total r + 1.
Proof.
  unfold count_position, range_total, range_counts, py_sum.
  destruct (pos a <=? 20); [|destruct (pos a <=? 40); [|destruct (pos a <=? 60);
    [|destruct (pos a <=? 80)]]]; cbn; lia.
Qed.

Lemma fold_count_position_total (l : list Action) (r : PosRanges) :
  range_total (fold_left count_position l r) = range_total r + Z.of_nat (length l).
Proof.
  revert r. induction l as [|a l IH]; intros r; cbn [fold_left length]; [lia|].
  rewrite IH, count_position_total. lia.
Qed.

(** Every action falls into exactly one of the five ranges. *)
Lemma position_distribution_total (l : list Action) :
  range_total (position_distribution l) = Z.of_nat (length l).
Proof.
  unfold position_distribution. rewrite fold_count_position_total. reflexivity.
Qed.

Lemma extremes_split (l : list Action) :
  count_if (fun a => pos a =? 0) (filter (fun a => is_extreme (pos a)) l)
  + count_if (fun a => pos a =? 100) (filter (fun a => is_extreme (pos a)) l)
  = Z.of_nat (length (filter (fun a => is_extreme (pos a)) l)).
Proof.
  unfold count_if. induction l as [|a l IH]; [reflexivity|].
  cbn [filter].
  assert (Hx : is_extreme (pos a) = (pos a =? 0) || (pos a =? 100)) by reflexivity.
  rewrite Hx. clear Hx.
  destruct (pos a =? 0) eqn:E0; destruct (pos a =? 100) eqn:E1; cbn [orb].
  - apply Z.eqb_eq in E0. apply Z.eqb_eq in E1. lia.
  - cbn [filter]. rewrite E0, E1. cbn [length]. lia.
  - cbn [filter]. rewrite E0, E1. cbn [length]. lia.
  - exact IH.
Qed.

Lemma find_extremes_length (i : nat) (l : list Action) :
  length (find_extremes i l) = length (filter (fun a => is_extreme (pos a)) l).
Proof.
  revert i. induction l as [|a l IH]; intros i; [reflexivity|].
  cbn [find_extremes filter]. destruct (is_extreme (pos a)); cbn [length];
    now rewrite IH.
Qed.

(** What the analysis computes on a list of at least two actions. *)
Lemma analyze_funscript_spec (a b : Action) (l : list Action) :
  let actions := a :: b :: l in
  let durations := segment_durations actions in
  exists mn mx ps ss pp,
    analyze_funscript actions
    = Some (mkAnalysis
              (Z.of_nat (length actions))
              (Py.float (last_at 0 actions) / 1000 / 60)%Q
              (Py.float (py_sum durations) / py_len durations)%Q
              mn mx
              (count_if (fun d => d >? 40) durations)
              (Py.float (count_if (fun d => d >? 40) durations)
               / py_len durations * 100)%Q
              (find_pauses actions) ps
              (Z.of_nat (length (filter (fun a => is_extreme (pos a)) actions)))
              (count_if (fun a => pos a =? 0)
                 (filter (fun a => is_extreme (pos a)) actions))
              (count_if (fun a => pos a =? 100)
                 (filter (fun a => is_extreme (pos a)) actions))
              ss (position_distribution actions) pp)
    /\ py_min durations = Some mn
    /\ py_max durations = Some mx
    /\ percentages (range_counts (position_distribution actions)) (py_len actions)
       = Some pp.
Proof.
  intros actions durations. unfold analyze_funscript.
  destruct (rev actions) as [|final l0] eqn:Er.
  { apply (f_equal (@length Action)) in Er. rewrite length_rev in Er. discriminate. }
  rewrite <- (rev_last_at 0 actions l0 final Er).
  fold durations.
  assert (Hd : durations <> []) by discriminate.
  rewrite !(Py_div_pos _ _ (py_len_pos durations Hd)).
  destruct durations as [|d ds] eqn:Ed; [contradiction|]. cbn [py_min py_max].
  destruct (summarize_pauses_some (find_pauses actions)) as [ps ->].
  destruct (motion_speeds_positive actions) as [up [down [-> [Hu Hdn]]]].
  destruct (summarize_speeds_some up down Hu Hdn) as [ss ->].
  pose proof (percentages_map (range_counts (position_distribution actions))
                (py_len actions) (py_len_pos actions ltac:(discriminate))) as Ep.
  rewrite Ep. do 5 eexists. split; [reflexivity|]. repeat split; reflexivity || exact Ep.
Qed.


(** The segment statistics of a finished analysis.  The durations
    telescope, in integers: the average segment is the time from the first
    action to the last divided by the number of segments, one division.
    The average lies between the minimum and the maximum, at most every
    segment is a fluid motion, and every pause found is longer than
    500 ms. *)
Theorem analysis_segment_statistics (actions : list Action) (r : Analysis) :
  analyze_funscript actions = Some r ->
  exists first rest,
    actions = first :: rest
    /\ total_actions r = Z.of_nat (length actions)
    /\ py_sum (segment_durations actions) = last_at 0 actions - at_ first
    /\ avg_segment r
       = (Py.float (last_at 0 actions - at_ first)
          / Py.float (total_actions r - 1))%Q
    /\ duration_minutes r = (Py.float (last_at 0 actions) / 1000 / 60)%Q
    /\ (Py.float (min_segment r) <= avg_segment r <= Py.float (max_segment r))%Q
    /\ 0 <= fluid_motions r <= total_actions r - 1
    /\ (0 <= fluid_percent r <= 100)%Q
    /\ Forall (fun d => 500 < d) (pauses r).
Proof.
  destruct actions as [|a [|b l]]; [discriminate | discriminate |].
  destruct (analyze_funscript_spec a b l) as [mn [mx [ps [ss [pp [E [Emn [Emx _]]]]]]]].
  cbv zeta in E, Emn, Emx.
  set (actions := a :: b :: l) in *.
  set (durations := segment_durations actions) in *.
  rewrite E. intros H. apply Some_eq in H. subst r.
  unfold total_actions, avg_segment, duration_minutes, min_segment, max_segment,
    fluid_motions, fluid_percent, pauses.
  exists a, (b :: l). split; [reflexivity|]. split; [reflexivity|].
  assert (Hne : durations <> []) by discriminate.
  assert (Hlen : Z.of_nat (length durations) = Z.of_nat (length actions) - 1).
  { unfold durations, actions. rewrite segment_durations_length. cbn [length]. lia. }
  assert (Hsum : py_sum durations = last_at 0 actions - at_ a).
  { unfold durations, actions. rewrite segment_durations_sum. reflexivity. }
  pose proof (py_len_pos durations Hne) as Hn.
  split; [exact Hsum|].
  split; [unfold py_len; now rewrite Hsum, Hlen|].
  split; [reflexivity|].
  split.
  { apply int_mean_between; [exact Hne | |].
    - now apply py_min_spec.
    - now apply py_max_spec. }
  pose proof (count_if_range (fun d => d >? 40) durations) as Hc.
  split; [lia|].
  split; [|apply find_pauses_long].
  destruct Hc as [Hc0 Hc1].
  apply (Py_float_le 0) in Hc0. apply Py_float_le in Hc1. fold (py_len durations) in Hc1.
  set (c := Py.float (count_if (fun d => d >? 40) durations)) in *.
  change (Py.float 0) with 0%Q in Hc0.
  split.
  - apply Qmult_le_0_compat; [|lra]. apply Qle_shift_div_l; [exact Hn | lra].
  - assert (H1 : (c / py_len durations <= 1)%Q).
    { apply Qle_shift_div_r; [exact Hn | lra]. }
    lra.
Qed.

Lemma analysis_segment_statistics_witness :
  exists r first rest,
    analyze_funscript demo_actions = Some r
    /\ demo_actions = first :: rest
    /\ total_actions r = Z.of_nat (length demo_actions)
    /\ py_sum (segment_durations demo_actions) = last_at 0 demo_actions - at_ first
    /\ avg_segment r
       = (Py.float (last_at 0 demo_actions - at_ first)
          / Py.float (total_actions r - 1))%Q
    /\ duration_minutes r = (Py.float (last_at 0 demo_actions) / 1000 / 60)%Q
    /\ (Py.float (min_segment r) <= avg_segment r <= Py.float (max_segment r))%Q
    /\ 0 <= fluid_motions r <= total_actions r - 1
    /\ (0 <= fluid_percent r <= 100)%Q
    /\ Forall (fun d => 500 < d) (pauses r).
Proof.
  destruct (analyze_funscript demo_actions) as [r|] eqn:E; [|discriminate E].
  destruct (analysis_segment_statistics demo_actions r E) as [first [rest H]].
  exists r, first, rest. split; [reflexivity | exact H].
Defined.

Lemma count_position_nonneg (r : PosRanges) (a : Action) :
  Forall (fun c => 0 <= c) (range_counts r) ->
  Forall (fun c => 0 <= c) (range_counts (count_position r a)).
Proof.
  unfold range_counts, count_position. intros H.
  inversion H as [|? ? H1 H']; subst. inversion H' as [|? ? H2 H'']; subst.
  inversion H'' as [|? ? H3 H3']; subst. inversion H3' as [|? ? H4 H4']; subst.
  inversion H4' as [|? ? H5 _]; subst.
  destruct (pos a <=? 20); [|destruct (pos a <=? 40); [|destruct (pos a <=? 60);
    [|destruct (pos a <=? 80)]]]; cbn; repeat constructor; lia.
Qed.

Lemma position_distribution_nonneg (l : list Action) :
  Forall (fun c => 0 <= c) (range_counts (position_distribution l)).
Proof.
  unfold position_distribution.
  assert (H : forall r, Forall (fun c => 0 <= c) (range_counts r) ->
                        Forall (fun c => 0 <= c)
                               (range_counts (fold_left count_position l r))).
  { induction l as [|a l IH]; intros r Hr; cbn [fold_left]; [exact Hr|].
    apply IH. now apply count_position_nonneg. }
  apply H. unfold range_counts. cbn.
  repeat (apply Forall_cons; [lia|]). apply Forall_nil.
Qed.

Lemma py_sum_upper (l : list Z) (c : Z) :
  Forall (fun x => 0 <= x) l -> In c l -> 0 <= c <= py_sum l.
Proof.
  induction 1 as [|x l Hx Hl IH]; [contradiction|].
  rewrite py_sum_cons. pose proof (py_sum_ge 0 l Hl) as Hs.
  intros [<- | Hin]; [lia|]. specialize (IH Hin). lia.
Qed.

(** The position counts of a finished analysis: the actions at position 0
    and at position 100 are all the extreme positions, as many as the
    verifier of [verify_full_strokes.py] scans; the five ranges hold every
    action exactly once, and each of the five percentages lies between 0
    and 100. *)
Theorem analysis_position_counts (actions : list Action) (r : Analysis) :
  analyze_funscript actions = Some r ->
  position_0 r + position_100 r = extreme_positions r
  /\ extreme_positions r = Z.of_nat (length (find_extremes 0 actions))
  /\ 0 <= extreme_positions r <= total_actions r
  /\ range_total (pos_ranges r) = total_actions r
  /\ Forall (fun c => 0 <= c <= total_actions r) (range_counts (pos_ranges r))
  /\ length (pos_percentages r) = 5%nat
  /\ Forall (fun p => 0 <= p <= 100)%Q (pos_percentages r).
Proof.
  destruct actions as [|a [|b l]]; [discriminate | discriminate |].
  destruct (analyze_funscript_spec a b l) as [mn [mx [ps [ss [pp [E [_ [_ Ep]]]]]]]].
  cbv zeta in E, Ep.
  set (actions := a :: b :: l) in *.
  rewrite E. intros H. apply Some_eq in H. subst r.
  unfold position_0, position_100, extreme_positions, total_actions, pos_ranges,
    pos_percentages.
  split; [apply extremes_split|].
  split; [now rewrite find_extremes_length|].
  split; [pose proof (filter_length_le (fun a => is_extreme (pos a)) actions); lia|].
  split; [apply position_distribution_total|].
  assert (Hcounts : Forall (fun c => 0 <= c <= Z.of_nat (length actions))
                           (range_counts (position_distribution actions))).
  { apply Forall_forall. intros c Hc.
    rewrite <- (position_distribution_total actions). unfold range_total.
    apply py_sum_upper; [apply position_distribution_nonneg | exact Hc]. }
  split; [exact Hcounts|].
  assert (Hn : (0 < py_len actions)%Q) by (apply py_len_pos; discriminate).
  rewrite (percentages_map _ _ Hn) in Ep. apply Some_eq in Ep. subst pp.
  split; [now rewrite length_map|].
  apply Forall_map. eapply Forall_impl; [|exact Hcounts].
  intros c [Hc0 Hc1]. cbv beta.
  apply (Py_float_le 0) in Hc0. apply Py_float_le in Hc1.
  fold (py_len actions) in Hc1. change (Py.float 0) with 0%Q in Hc0.
  set (x := Py.float c) in *. set (n := py_len actions) in *.
  assert (H0 : (0 <= x / n)%Q).
  { apply Qle_shift_div_l; [exact Hn | lra]. }
  assert (H1 : (x / n <= 1)%Q).
  { apply Qle_shift_div_r; [exact Hn | lra]. }
  set (q := (x / n)%Q) in *. split; lra.
Qed.

Lemma analysis_position_counts_witness :
  exists r,
    analyze_funscript demo_actions = Some r
    /\ position_0 r + position_100 r = extreme_positions r
    /\ extreme_positions r = Z.of_nat (length (find_extremes 0 demo_actions))
    /\ 0 <= extreme_positions r <= total_actions r
    /\ range_total (pos_ranges r) = total_actions r
    /\ Forall (fun c => 0 <= c <= total_actions r) (range_counts (pos_ranges r))
    /\ length (pos_percentages r) = 5%nat
    /\ Forall (fun p => 0 <= p <= 100)%Q (pos_percentages r).
Proof.
  destruct (analyze_funscript demo_actions) as [r|] eqn:E; [|discriminate E].
  exists r. split; [reflexivity|].
  exact (analysis_position_counts demo_actions r E).
Defined.

(** The analysis of a generated script never raises: the script has at
    least two actions.  It reports a duration of 30 to 30.3 minutes, a
    shortest segment of at least 1 ms (timestamps strictly increase), and
    an average segment that is the last timestamp divided by the number of
    segments, between 1 ms and the longest segment. *)
Theorem analyze_generated_script (sin cos : Q -> Q) (pi : Q)
    (fuel : nat) (g : rng) (l : list Action) :
  generate_edging_script sin cos pi fuel g = Finished l ->
  exists r,
    analyze_funscript l = Some r
    /\ 2 <= total_actions r
    /\ (30 <= duration_minutes r < 303 # 10)%Q
    /\ 1 <= min_segment r
    /\ avg_segment r
       = (Py.float (last_at 0 l) / Py.float (total_actions r - 1))%Q
    /\ (1 <= avg_segment r <= Py.float (max_segment r))%Q.
Proof.
  intros H.
  destruct (generated_timeline_facts sin cos pi fuel g l H)
    as [_ [Hsorted [[rest ->] Hlast]]].
  destruct rest as [|b rest].
  { cbn in Hlast. unfold DURATION_MS in Hlast. lia. }
  destruct (analyze_funscript_spec (mkAction 0 50) b rest)
    as [mn [mx [ps [ss [pp [E [Emn [Emx _]]]]]]]].
  cbv zeta in E, Emn, Emx.
  set (actions := mkAction 0 50 :: b :: rest) in *.
  rewrite E. eexists. split; [reflexivity|].
  unfold total_actions, duration_minutes, min_segment, max_segment, avg_segment.
  split; [unfold actions; cbn [length]; lia|].
  split.
  { unfold DURATION_MS, MAX_STEP_MS, base_ms_per_unit in Hlast.
    destruct Hlast as [H1 H2].
    apply (Py_float_le 1800000) in H1.
    assert (H3 : (Py.float (last_at 0 actions) <= Py.float 1817999)%Q)
      by (apply Py_float_le; lia).
    unfold Py.float in *.
    change (inject_Z 1800000) with (1800000 # 1)%Q in H1.
    change (inject_Z 1817999) with (1817999 # 1)%Q in H3.
    set (x := inject_Z (last_at 0 actions)) in *.
    split.
    - apply Qle_shift_div_l; [reflexivity|]. apply Qle_shift_div_l; [reflexivity|]. lra.
    - apply Qlt_shift_div_r; [reflexivity|]. apply Qlt_shift_div_r; [reflexivity|]. lra. }
  assert (Hmin : 1 <= mn).
  { apply (py_min_ge 1 _ _ Emn). now apply segment_durations_strict. }
  split; [exact Hmin|].
  assert (Hlen : Z.of_nat (length (segment_durations actions))
                 = Z.of_nat (length actions) - 1).
  { unfold actions. rewrite segment_durations_length. cbn [length]. lia. }
  assert (Hsum : py_sum (segment_durations actions) = last_at 0 actions).
  { unfold actions. rewrite segment_durations_sum. cbn [at_ last_at]. lia. }
  split; [unfold py_len; now rewrite Hsum, Hlen|].
  assert (Hne : segment_durations actions <> []) by discriminate.
  destruct (int_mean_between mn mx (segment_durations actions) Hne
              (py_min_spec _ _ Emn) (py_max_spec _ _ Emx)) as [Hlo Hhi].
  split; [|exact Hhi].
  apply (Py_float_le 1) in Hmin. change (Py.float 1) with 1%Q in Hmin. lra.
Qed.

Lemma analyze_generated_script_witness :
  exists l r,
    generate_edging_script libm_sin libm_cos libm_pi 3000 (mk_rng hash_tape 0)
    = Finished l
    /\ analyze_funscript l = Some r
    /\ 2 <= total_actions r
    /\ (30 <= duration_minutes r < 303 # 10)%Q
    /\ 1 <= min_segment r
    /\ avg_segment r
       = (Py.float (last_at 0 l) / Py.float (total_actions r - 1))%Q
    /\ (1 <= avg_segment r <= Py.float (max_segment r))%Q.
Proof.
  destruct demo_script as [l E].
  destruct (analyze_generated_script libm_sin libm_cos libm_pi 3000
              (mk_rng hash_tape 0) l E) as [r H].
  exists l, r. split; [exact E | exact H].
Defined.

(** ** Binary64 against exact arithmetic *)

Lemma in_upto (n z : Z) : 0 <= z < n -> In z (upto n).
Proof.
  intros H. unfold upto. apply in_map_iff. exists (Z.to_nat z).
  split; [lia|]. apply in_seq. lia.
Qed.

Lemma trunc_shift_int (x : PrimFloat.float) : Binary64.int x = trunc_shift x.
Proof.
  unfold Binary64.int, trunc_shift. destruct (Prim2SF x) as [| | |s m e]; try reflexivity.
  destruct (0 <=? e) eqn:E; [reflexivity|]. apply Z.leb_gt in E.
  cbv zeta. rewrite Z.shiftr_div_pow2 by lia.
  rewrite Z.quot_div_nonneg; [reflexivity | lia |].
  apply Z.pow_pos_nonneg; lia.
Qed.

Lemma sample_time_shift_eq (duration i num_points : Z) :
  Binary64Generators.sample_time duration i num_points
  = sample_time_shift duration i num_points.
Proof. apply trunc_shift_int. Qed.

Lemma plateau_target_shift_eq (start_pos end_pos i : Z) :
  Binary64.plateau_target start_pos end_pos i
  = plateau_target_shift start_pos end_pos i.
Proof. apply trunc_shift_int. Qed.

Lemma for_range_ext_in {S : Type} (body body' : Z -> S -> S) (n : nat) (i : Z) (s : S) :
  (forall j s, i <= j < i + Z.of_nat n -> body j s = body' j s) ->
  Py.for_range n i body s = Py.for_range n i body' s.
Proof.
  revert i s. induction n as [|n IH]; intros i s H; cbn [Py.for_range]; [reflexivity|].
  rewrite H by lia. apply IH. intros j s' Hj. apply H. lia.
Qed.

Lemma scan_samples_spec (d n : Z) (k : nat) (i : Z) :
  scan_samples d n k i (sample_time_shift d i n) = true ->
  sample_time_shift d (i + Z.of_nat k) n = d
  /\ forall j, i <= j <= i + Z.of_nat k ->
       offset_close d n j (sample_time_shift d j n) = true
       /\ (j < i + Z.of_nat k ->
           sample_time_shift d j n <= sample_time_shift d (j + 1) n).
Proof.
  revert i. induction k as [|k IH]; intros i H; cbn [scan_samples] in H;
    apply andb_true_iff in H; destruct H as [Hc H].
  - apply Z.eqb_eq in H. rewrite Z.add_0_r. split; [exact H|].
    intros j Hj. assert (j = i) by lia. subst j. split; [exact Hc | lia].
  - cbv zeta in H. apply andb_true_iff in H. destruct H as [Hle H].
    apply Z.leb_le in Hle. destruct (IH (i + 1) H) as [Hlast Hall].
    replace (i + Z.of_nat (S k)) with (i + 1 + Z.of_nat k) by lia.
    split; [exact Hlast|]. intros j Hj.
    destruct (Z.eq_dec j i) as [-> | Hne]; [split; [exact Hc | intros _; exact Hle]|].
    apply Hall. lia.
Qed.

Lemma normal_sample_times_check :
  forallb normal_sample_times_ok (upto 101) = true.
Proof. vm_compute. reflexivity. Qed.

Lemma normal_duration_check :
  forallb normal_duration_agrees (upto 101) = true.
Proof. vm_compute. reflexivity. Qed.

Lemma stroke_positions_check :
  forallb stroke_positions_agree (upto 101) = true.
Proof. vm_compute. reflexivity. Qed.

Lemma stroke_times_check :
  forallb stroke_times_agree leg_band = true.
Proof. vm_compute. reflexivity. Qed.

Lemma plateau_check :
  forallb (fun start_pos => forallb (plateau_agrees start_pos) (upto 101)) (upto 101)
  = true.
Proof. vm_compute. reflexivity. Qed.

Lemma normal_duration_binary64 (distance : Z) (up : bool) :
  0 <= distance <= 100 ->
  exists base_duration,
    calculate_duration distance up 1 = Some base_duration
    /\ Binary64.calculate_duration distance up 1 = Some base_duration.
Proof.
  intros H. pose proof normal_duration_check as Hc. rewrite forallb_forall in Hc.
  specialize (Hc distance (in_upto 101 distance ltac:(lia))).
  unfold normal_duration_agrees in Hc. rewrite forallb_forall in Hc.
  assert (Hup : In up [true; false]) by (destruct up; cbn; auto).
  specialize (Hc up Hup).
  destruct (calculate_duration distance up 1) as [d|]; [|discriminate Hc].
  destruct (Binary64.calculate_duration distance up 1) as [b|]; [|discriminate Hc].
  apply Z.eqb_eq in Hc. subst b. now exists d.
Qed.

Lemma in_total_duration_band (total : Z) :
  10000 <= total <= 12000 -> In total total_duration_band.
Proof.
  intros H. unfold total_duration_band. apply in_map_iff.
  exists (Z.to_nat (total - 10000)). split; [lia|]. apply in_seq. lia.
Qed.

Lemma leg_duration_binary64_eq (total : Z) (up : bool) :
  10000 <= total <= 12000 ->
  Binary64.leg_duration total up = leg_duration total up.
Proof.
  intros H. pose proof leg_duration_binary64_check as Hc.
  rewrite forallb_forall in Hc.
  specialize (Hc total (in_total_duration_band total H)).
  apply andb_true_iff in Hc.
  destruct Hc as [Hu Hd]. apply Z.eqb_eq in Hu, Hd. now destruct up.
Qed.

Lemma leg_duration_in_band (total : Z) (up : bool) :
  10000 <= total <= 12000 -> In (leg_duration total up) leg_band.
Proof.
  intros H. unfold leg_band. apply in_app_iff. destruct up.
  - left. rewrite leg_duration_up by lia. apply in_map_iff.
    exists (total / 3 - 3333). split; [lia|]. apply in_upto.
    pose proof (Z.div_mod total 3 ltac:(lia)).
    pose proof (Z.mod_pos_bound total 3 ltac:(lia)). lia.
  - right. rewrite leg_duration_down by lia. apply in_map_iff.
    exists (total / 2 - 5000). split; [lia|]. apply in_upto.
    pose proof (Z.div_mod total 2 ltac:(lia)).
    pose proof (Z.mod_pos_bound total 2 ltac:(lia)). lia.
Qed.

Lemma stroke_body_binary64 (from to time0 total : Z) (up : bool)
    (i : Z) (actions : list Action) :
  0 <= from <= 100 -> to = 0 \/ to = 100 -> 10000 <= total <= 12000 ->
  0 <= i < 8 ->
  Binary64Generators.stroke_body from to time0 (leg_duration total up) i actions
  = stroke_body from to time0 (leg_duration total up) i actions.
Proof.
  intros Hf Ht HT Hi.
  unfold Binary64Generators.stroke_body, stroke_body. cbv zeta. do 2 f_equal.
  f_equal.
  - f_equal. rewrite sample_time_shift_eq.
    pose proof stroke_times_check as Hc. rewrite forallb_forall in Hc.
    specialize (Hc _ (leg_duration_in_band total up HT)).
    unfold stroke_times_agree in Hc. rewrite forallb_forall in Hc.
    specialize (Hc i (in_upto 8 i Hi)). apply Z.eqb_eq in Hc. exact Hc.
  - pose proof stroke_positions_check as Hc. rewrite forallb_forall in Hc.
    specialize (Hc from (in_upto 101 from ltac:(lia))).
    unfold stroke_positions_agree in Hc. rewrite forallb_forall in Hc.
    assert (Hto : In to [0; 100]) by (destruct Ht; subst; cbn; auto).
    specialize (Hc to Hto). rewrite forallb_forall in Hc.
    specialize (Hc i (in_upto 8 i Hi)). apply Z.eqb_eq in Hc. exact Hc.
Qed.

(** For a start position in [[0, 100]] the full-range cycle computed on
    IEEE-754 binary64 is the one computed in exact arithmetic: the same 15
    samples, the same end time and end position, for every draw of the
    total duration.  (The cycle ignores its speed multiplier.) *)
Theorem generate_full_stroke_binary64
    (start_pos start_time : Z) (speed_mult : Q) (g : rng) :
  0 <= start_pos <= 100 ->
  Binary64Generators.generate_full_stroke start_pos start_time g
  = generate_full_stroke start_pos start_time speed_mult g.
Proof.
  intros Hs. pose proof (stroke_total_duration_range g) as HT.
  unfold Binary64Generators.generate_full_stroke, generate_full_stroke.
  destruct (start_pos <? 50); rewrite randint_eq;
    change (10000 + tape g (cursor g) mod (12000 - 10000 + 1))
      with (stroke_total_duration g); cbv zeta iota beta;
    rewrite !(leg_duration_binary64_eq _ _ HT).
  - f_equal. f_equal. f_equal.
    rewrite (for_range_ext_in
               (Binary64Generators.stroke_body start_pos 100 start_time
                  (leg_duration (stroke_total_duration g) (100 >? start_pos)))
               (stroke_body start_pos 100 start_time
                  (leg_duration (stroke_total_duration g) (100 >? start_pos))) 8 0 []).
    + apply for_range_ext_in. intros j s Hj.
      apply stroke_body_binary64; [lia | now left | exact HT | lia].
    + intros j s Hj. apply stroke_body_binary64; [lia | now right | exact HT | lia].
  - f_equal. f_equal. f_equal.
    rewrite (for_range_ext_in
               (Binary64Generators.stroke_body start_pos 0 start_time
                  (leg_duration (stroke_total_duration g) (0 >? start_pos)))
               (stroke_body start_pos 0 start_time
                  (leg_duration (stroke_total_duration g) (0 >? start_pos))) 8 0 []).
    + apply for_range_ext_in. intros j s Hj.
      apply stroke_body_binary64; [lia | now right | exact HT | lia].
    + intros j s Hj. apply stroke_body_binary64; [lia | now left | exact HT | lia].
Qed.

Lemma generate_full_stroke_binary64_witness :
  Binary64Generators.generate_full_stroke 50 0 (mk_rng hash_tape 0)
  = generate_full_stroke 50 0 1 (mk_rng hash_tape 0).
Proof. apply (generate_full_stroke_binary64 50 0 1 (mk_rng hash_tape 0)). lia. Defined.

(** The sample times of the oscillating and the eased generator on
    IEEE-754 binary64, for a move of 0 to 100 units at normal speed
    ([speed_mult = 1.0]) in 5 to 10 steps.  The duration of the move is the
    exact one; [int(base_duration * progress)] is the exact value or 1 ms
    less, it is 0 at the first sample and [base_duration] at the last, and
    it never decreases from a sample to the next.  The difference of 1 ms
    occurs: for an upward move of 7 units (700 ms), [int(700 * (7 / 10))]
    is 489 on binary64 and 490 in exact arithmetic. *)
Theorem sample_times_binary64 (distance : Z) (going_up : bool) (num_points i : Z) :
  0 <= distance <= 100 -> 5 <= num_points <= 10 -> 0 <= i <= num_points ->
  exists base_duration,
    Binary64.calculate_duration distance going_up 1 = Some base_duration
    /\ calculate_duration distance going_up 1 = Some base_duration
    /\ (forall (sin cos : Q -> Q) (pi : Q)
               (wave_amplitude start_pos end_pos start_time : Z),
          at_ (wave_sample_with_amplitude sin pi wave_amplitude start_pos end_pos
                 start_time num_points base_duration i)
          = start_time + sample_offset base_duration i num_points
          /\ at_ (gradual_sample cos pi start_pos end_pos start_time num_points
                    base_duration i)
             = start_time + sample_offset base_duration i num_points)
    /\ sample_offset base_duration i num_points - 1
       <= Binary64Generators.sample_time base_duration i num_points
       <= sample_offset base_duration i num_points
    /\ Binary64Generators.sample_time base_duration 0 num_points = 0
    /\ Binary64Generators.sample_time base_duration num_points num_points
       = base_duration
    /\ (i < num_points ->
        Binary64Generators.sample_time base_duration i num_points
        <= Binary64Generators.sample_time base_duration (i + 1) num_points)
    /\ Binary64.calculate_duration 7 true 1 = Some 700
    /\ Binary64Generators.sample_time 700 7 10 = 489
    /\ sample_offset 700 7 10 = 490.
Proof.
  intros Hd Hn Hi.
  destruct (normal_duration_binary64 distance going_up Hd)
    as [base_duration [Eq Eb]].
  exists base_duration. split; [exact Eb|]. split; [exact Eq|].
  split; [intros; split; reflexivity|].
  pose proof normal_sample_times_check as Hc. rewrite forallb_forall in Hc.
  specialize (Hc distance (in_upto 101 distance ltac:(lia))).
  unfold normal_sample_times_ok in Hc. rewrite forallb_forall in Hc.
  assert (Hup : In going_up [true; false]) by (destruct going_up; cbn; auto).
  specialize (Hc going_up Hup). rewrite Eb in Hc.
  unfold sample_times_ok in Hc. rewrite forallb_forall in Hc.
  assert (Hin : In num_points [5; 6; 7; 8; 9; 10]).
  { assert (H : num_points = 5 \/ num_points = 6 \/ num_points = 7
                \/ num_points = 8 \/ num_points = 9 \/ num_points = 10) by lia.
    cbn. intuition auto. }
  specialize (Hc num_points Hin). apply andb_true_iff in Hc.
  destruct Hc as [H0 Hscan]. apply Z.eqb_eq in H0.
  destruct (scan_samples_spec _ _ _ _ Hscan) as [Hlast Hall].
  rewrite Z.add_0_l, Z2Nat.id in Hlast by lia.
  destruct (Hall i ltac:(lia)) as [Hclose Hnext].
  unfold offset_close in Hclose. cbv zeta in Hclose.
  apply andb_true_iff in Hclose. destruct Hclose as [Hlo Hhi].
  apply Z.leb_le in Hlo, Hhi.
  rewrite !sample_time_shift_eq.
  split; [lia|]. split; [exact H0|]. split; [exact Hlast|].
  split; [intros Hlt; apply Hnext; lia|].
  split; [|split]; vm_compute; reflexivity.
Qed.

Lemma sample_times_binary64_witness :
  Binary64.calculate_duration 7 true 1 = Some 700
  /\ calculate_duration 7 true 1 = Some 700
  /\ sample_offset 700 7 10 - 1
     <= Binary64Generators.sample_time 700 7 10
     <= sample_offset 700 7 10.
Proof.
  destruct (sample_times_binary64 7 true 10 7 ltac:(lia) ltac:(lia) ltac:(lia))
    as [base [Eb [Eq [_ [H _]]]]].
  assert (E : Binary64.calculate_duration 7 true 1 = Some 700)
    by (vm_compute; reflexivity).
  rewrite E in Eb. apply Some_eq in Eb. subst base.
  split; [exact E|]. split; [exact Eq | exact H].
Defined.

(** For start and end positions in [[0, 100]] the three hold positions of
    the plateaued generator are the same on IEEE-754 binary64 as in exact
    arithmetic, and so is the duration of the move at normal speed
    ([speed_mult = 1.0]). *)
Theorem plateau_binary64 (start_pos end_pos i : Z) :
  0 <= start_pos <= 100 -> 0 <= end_pos <= 100 -> 0 <= i <= 2 ->
  Binary64.plateau_target start_pos end_pos i = plateau_target start_pos end_pos i
  /\ exists base_duration,
       calculate_duration (Z.abs (end_pos - start_pos)) (end_pos >? start_pos) 1
       = Some base_duration
       /\ Binary64.calculate_duration (Z.abs (end_pos - start_pos))
            (end_pos >? start_pos) 1
          = Some base_duration.
Proof.
  intros Hs He Hi. split; [|apply normal_duration_binary64; lia].
  rewrite plateau_target_shift_eq.
  pose proof plateau_check as Hc. rewrite forallb_forall in Hc.
  specialize (Hc start_pos (in_upto 101 start_pos ltac:(lia))).
  rewrite forallb_forall in Hc.
  specialize (Hc end_pos (in_upto 101 end_pos ltac:(lia))).
  unfold plateau_agrees in Hc.
  rewrite forallb_forall in Hc. specialize (Hc i (in_upto 3 i ltac:(lia))).
  apply Z.eqb_eq in Hc. exact Hc.
Qed.

Lemma plateau_binary64_witness :
  Binary64.plateau_target 20 80 2 = plateau_target 20 80 2
  /\ exists base_duration,
       calculate_duration (Z.abs (80 - 20)) (80 >? 20) 1 = Some base_duration
       /\ Binary64.calculate_duration (Z.abs (80 - 20)) (80 >? 20) 1
          = Some base_duration.
Proof. apply (plateau_binary64 20 80 2); lia. Defined.
